(** * PlotSeries: the sorted telemetry buffer behind a plot line

    A shallow embedding of [src/plugins/plot/src/plot/PlotSeries.js].

    Conventions of the embedding.
    - A telemetry datum is a JavaScript object; the series compares data by
      reference ([Array.prototype.indexOf]).  [Point] is the type of those
      references, with decidable equality.  The series never writes the x or
      y field of a datum, so the bound parsers [getXVal] and [getYVal] are
      functions of the reference.  The one field the series does write,
      [_limit], lives in the [limits] map of the series state.
    - Parsed values are integers ([Z]): timestamps and sample values, held
      in JavaScript numbers.  Comparing two of them is exact.  Subtracting
      them is not: [nearestPoint] gets the exact difference rounded to the
      nearest double, or an infinity ([double_sub]).
    - Array indices are [Z] wherever the source can produce a negative one
      ([indexOf] returning -1, [insertIndex - 1]).
    - [this.emit] appends to the [emitted] trace of the series.
    - [load] and [fetch] are asynchronous and the key-change handlers only
      rebind the collaborators; they are outside the embedding. *)

From Stdlib Require Import ZArith List Lia Bool.
From stdpp Require Import base decidable option list numbers countable sorting gmap.

Local Open Scope Z_scope.

(** ** JavaScript arrays *)

Module JsArray.
Section JsArray.
Context {A : Type} `{EqDecision A}.

(** Relative index normalisation shared by [slice] and [splice]:
    a negative index counts from the end, and the result is clamped
    to [0 .. length]. *)
Definition clamp_index (len i : Z) : Z :=
  if i <? 0 then Z.max (len + i) 0 else Z.min i len.

(** [array[i]]: [undefined] ([None]) outside [0 .. length - 1]. *)
Definition get (array : list A) (i : Z) : option A :=
  if i <? 0 then None else array !! Z.to_nat i.

(** [array.slice(begin, end)] *)
Definition slice (array : list A) (begin final : Z) : list A :=
  let len := Z.of_nat (length array) in
  let k := clamp_index len begin in
  let e := clamp_index len final in
  take (Z.to_nat (Z.max (e - k) 0)) (drop (Z.to_nat k) array).

(** [array.splice(start, deleteCount, ...items)]: the array afterwards. *)
Definition splice (array : list A) (start deleteCount : Z) (items : list A)
  : list A :=
  let len := Z.of_nat (length array) in
  let k := clamp_index len start in
  let dc := Z.min (Z.max deleteCount 0) (len - k) in
  take (Z.to_nat k) array ++ items ++ drop (Z.to_nat (k + dc)) array.

(** [array.indexOf(x)]: the first index holding [x], or -1. *)
Fixpoint indexOf_from (array : list A) (x : A) (i : Z) : Z :=
  match array with
  | [] => -1
  | y :: rest => if decide (y = x) then i else indexOf_from rest x (i + 1)
  end.

Definition indexOf (array : list A) (x : A) : Z := indexOf_from array x 0.

(** [array.forEach(f, this)] for a method [f] of the receiver [this]:
    the receiver is threaded through the calls. *)
Definition forEach {S : Type} (f : A -> S -> S) (array : list A) (this : S)
  : S :=
  fold_left (fun acc x => f x acc) array this.
End JsArray.
End JsArray.

(** ** lodash *)

Module Lodash.
Section Lodash.
Context {A : Type}.
Variable iteratee : A -> Z.

(** Modelled from the spec: lodash is a dependency of the repository and
    its [_.sortedIndex(array, value, iteratee)] is not part of the source
    tree; the spec asks for the standard binary insertion-point search,
    leftmost on ties.  This is the loop of lodash's [binaryIndexBy] on
    numeric keys: [low] moves past [mid] when the key at [mid] is strictly
    below the searched key, otherwise [high] drops to [mid].  The loop runs
    at most [high - low] times; [fuel] bounds it. *)
Fixpoint binaryIndexBy_loop (fuel : nat) (array : list A) (value : Z)
  (low high : nat) : nat :=
  match fuel with
  | O => high
  | S fuel' =>
      if Nat.ltb low high then
        let mid := Nat.div (low + high) 2 in
        let setLow :=
          match array !! mid with
          | Some x => iteratee x <? value
          | None => false
          end in
        if setLow then binaryIndexBy_loop fuel' array value (mid + 1) high
        else binaryIndexBy_loop fuel' array value low mid
      else high
  end.

Definition sortedIndex (array : list A) (value : A) : nat :=
  binaryIndexBy_loop (length array) array (iteratee value) 0 (length array).
End Lodash.
End Lodash.

(** ** Double-precision subtraction

    A JavaScript number is an IEEE 754 double: 53 significant bits, and
    magnitudes below 2^1024.  The difference of two numbers that hold
    integers is the exact difference rounded to the nearest double, ties to
    the even significand, and an infinity when the rounded magnitude
    reaches 2^1024. *)

(** The positive integer [m] rounded to 53 significant bits: [shift] bits
    are dropped, [ulp] is the spacing of the doubles around [m]. *)
Definition round_to_double_magnitude (m : Z) : Z :=
  let shift := Z.log2 m - 52 in
  if shift <=? 0 then m
  else
    let ulp := 2 ^ shift in
    let q := m / ulp in
    let r := m mod ulp in
    let half := ulp / 2 in
    let q' := if (half <? r) || ((r =? half) && Z.odd q) then q + 1 else q in
    q' * ulp.

(** The result of a subtraction: a finite number holding the integer [d],
    or an infinity. *)
Inductive Distance : Type :=
| Finite (d : Z)
| PositiveInfinity
| NegativeInfinity.

(** The double nearest to the integer [z]. *)
Definition to_double (z : Z) : Distance :=
  let m := round_to_double_magnitude (Z.abs z) in
  if 2 ^ 1024 <=? m then
    if z <? 0 then NegativeInfinity else PositiveInfinity
  else Finite (Z.sgn z * m).

(** [a - b] on two numbers that hold the integers [a] and [b]. *)
Definition double_sub (a b : Z) : Distance := to_double (a - b).

(** [a < b] *)
Definition distance_ltb (a b : Distance) : bool :=
  match a, b with
  | Finite x, Finite y => x <? y
  | Finite _, PositiveInfinity => true
  | Finite _, NegativeInfinity => false
  | PositiveInfinity, _ => false
  | NegativeInfinity, NegativeInfinity => false
  | NegativeInfinity, _ => true
  end.

(** ** The series *)

(** The collaborators injected into a series: the formats registry, the
    metadata and the limit evaluator.
    - [getXVal], [getYVal]: [this.getXVal] and [this.getYVal], the parsers of
      the x and y formats bound by [onXKeyChange] and [onYKeyChange];
    - [evaluate]: [this.evaluate], the limit evaluator closed over the
      metadata of the y key;
    - [boundPoint v]: the object [{[xKey]: format.format(v)}] that
      [purgeRecordsOutsideRange] builds for a range bound [v]. *)
Class Collaborators (Point Limit : Type) : Type := {
  getXVal : Point -> Z;
  getYVal : Point -> Z;
  evaluate : Point -> Limit;
  boundPoint : Z -> Point
}.

Section PlotSeries.
Context {Point : Type} `{Countable Point}.
Context {Limit : Type} `{!Collaborators Point Limit}.

Record Stats : Type := mkStats {
  minValue : Z;
  minPoint : Point;
  maxValue : Z;
  maxPoint : Point
}.

(** Events passed to [this.emit]; the last argument of [add] and [remove]
    is the emitting series ([this]). *)
Inductive Event : Type :=
| EvReset
| EvLoad
| EvAdd (point : Point) (index : Z) (series : nat)
| EvRemove (point : Point) (index : Z) (series : nat).

Record Series : Type := mkSeries {
  self : nat;
  data : list Point;
  stats : option Stats;
  limits : gmap Point Limit;
  emitted : list Event
}.

Definition set_data (d : list Point) (s : Series) : Series :=
  mkSeries (self s) d (stats s) (limits s) (emitted s).
Definition set_stats (st : option Stats) (s : Series) : Series :=
  mkSeries (self s) (data s) st (limits s) (emitted s).
Definition set_limit (p : Point) (l : Limit) (s : Series) : Series :=
  mkSeries (self s) (data s) (stats s) (<[p := l]> (limits s)) (emitted s).
Definition emit (e : Event) (s : Series) : Series :=
  mkSeries (self s) (data s) (stats s) (limits s) (emitted s ++ [e]).

(** [constructor]: [this.data = []], no stats, nothing emitted. *)
Definition new_series (id : nat) : Series := mkSeries id [] None ∅ [].

(** [sortedIndex] *)
Definition sortedIndex (point : Point) (s : Series) : Z :=
  Z.of_nat (Lodash.sortedIndex getXVal (data s) point).

(** [updateStats] *)
Definition updateStats (point : Point) (s : Series) : Series :=
  let value := getYVal point in
  match stats s with
  | None => set_stats (Some (mkStats value point value point)) s
  | Some st =>
      let changed1 := maxValue st <? value in
      let st1 :=
        if changed1 then mkStats (minValue st) (minPoint st) value point
        else st in
      let changed2 := minValue st1 >? value in
      let st2 :=
        if changed2 then mkStats value point (maxValue st1) (maxPoint st1)
        else st1 in
      if changed1 || changed2 then set_stats (Some st2) s else s
  end.

(** [resetStats] *)
Definition resetStats (s : Series) : Series :=
  JsArray.forEach updateStats (data s) (set_stats None s).

(** The parsed x value of [this.data[i]]; an absent element has none, and
    [===] against the x value of a datum is then false. *)
Definition xval_at (s : Series) (i : Z) : option Z :=
  getXVal <$> JsArray.get (data s) i.

(** [add] *)
Definition add (point : Point) (appendOnly : bool) (s : Series) : Series :=
  let insertIndex :=
    if appendOnly then Z.of_nat (length (data s)) else sortedIndex point s in
  if negb appendOnly
     && bool_decide (xval_at s insertIndex = Some (getXVal point))
  then s
  else if negb appendOnly
     && bool_decide (xval_at s (insertIndex - 1) = Some (getXVal point))
  then s
  else
    let s1 := updateStats point s in
    let s2 := set_limit point (evaluate point) s1 in
    let s3 := set_data (JsArray.splice (data s2) insertIndex 0 [point]) s2 in
    emit (EvAdd point insertIndex (self s3)) s3.

(** Modelled from the spec: [addPoints] is called by [reset] but defined
    nowhere in the source file; the spec says that [reset] bulk-appends
    the supplied points through [add] with the given append-only flag. *)
Definition addPoints (points : list Point) (appendOnly : bool) (s : Series)
  : Series :=
  JsArray.forEach (fun p => add p appendOnly) points s.

(** [reset]; [newData] is [None] when the argument is omitted. *)
Definition reset (newData : option (list Point)) (s : Series) : Series :=
  let s1 := set_data [] s in
  let s2 := resetStats s1 in
  let s3 := emit EvReset s2 in
  match newData with
  | Some points => addPoints points true s3
  | None => s3
  end.

(** [remove] *)
Definition remove (point : Point) (s : Series) : Series :=
  let index := JsArray.indexOf (data s) point in
  let s1 := set_data (JsArray.splice (data s) index 1 []) s in
  emit (EvRemove point index (self s1)) s1.

(** [nearestPoint] *)
Definition nearestPoint (point : Point) (s : Series) : option Point :=
  let insertIndex := sortedIndex point s in
  let lowPoint := JsArray.get (data s) (insertIndex - 1) in
  let highPoint := JsArray.get (data s) insertIndex in
  let indexVal := getXVal point in
  let lowDistance :=
    match lowPoint with
    | Some p => double_sub indexVal (getXVal p)
    | None => PositiveInfinity
    end in
  let highDistance :=
    match highPoint with
    | Some p => double_sub (getXVal p) indexVal
    | None => PositiveInfinity
    end in
  if distance_ltb highDistance lowDistance then highPoint else lowPoint.

(** [purgeRecordsOutsideRange]; the second [slice] reads [this.data] after
    the first [forEach] has removed the prefix. *)
Definition purgeRecordsOutsideRange (range_min range_max : Z) (s : Series)
  : Series :=
  let startPoint := boundPoint range_min in
  let endPoint := boundPoint range_max in
  let startIndex := sortedIndex startPoint s in
  let endIndex := sortedIndex endPoint s + 1 in
  let pointsToRemove :=
    startIndex + (Z.of_nat (length (data s)) - endIndex + 1) in
  if 0 <? pointsToRemove then
    if pointsToRemove <? 1000 then
      let s1 := JsArray.forEach remove (JsArray.slice (data s) 0 startIndex) s in
      let s2 :=
        JsArray.forEach remove
          (JsArray.slice (data s1) endIndex (Z.of_nat (length (data s1)))) s1 in
      resetStats s2
    else
      let newData := JsArray.slice (data s) startIndex endIndex in
      reset (Some newData) s
  else s.

End PlotSeries.

Arguments Stats Point : clear implicits.
Arguments Event Point : clear implicits.
Arguments Series Point {_ _} Limit.

(** ** Vocabulary of the properties *)

(** Strictly ascending: every element is below its successor. *)
Fixpoint strictly_ascending (l : list Z) : bool :=
  match l with
  | x :: (y :: _) as rest => (x <? y) && strictly_ascending rest
  | _ => true
  end.

(** [x] lies in the closed range [[range_min, range_max]]. *)
Definition in_range (range_min range_max x : Z) : bool :=
  (range_min <=? x) && (x <=? range_max).

(** [m] is the least (greatest) element of [l]. *)
Definition is_minimum (m : Z) (l : list Z) : Prop :=
  m ∈ l ∧ ∀ y, y ∈ l → m <= y.
Definition is_maximum (m : Z) (l : list Z) : Prop :=
  m ∈ l ∧ ∀ y, y ∈ l → y <= m.

Section Operations.
Context {Point : Type} `{Countable Point}.
Context {Limit : Type} `{!Collaborators Point Limit}.

(** The parsed x and y values of the stored points, in storage order. *)
Definition xvals (s : Series Point Limit) : list Z :=
  getXVal <$> data s.
Definition yvals (s : Series Point Limit) : list Z :=
  getYVal <$> data s.

(** The public mutators, as data, and sequences of calls. *)
Inductive Op : Type :=
| OpAdd (point : Point) (appendOnly : bool)
| OpRemove (point : Point)
| OpReset (newData : option (list Point))
| OpResetStats.

Definition apply_op (o : Op) (s : Series Point Limit)
  : Series Point Limit :=
  match o with
  | OpAdd point appendOnly => add point appendOnly s
  | OpRemove point => remove point s
  | OpReset newData => reset newData s
  | OpResetStats => resetStats s
  end.

Definition run (ops : list Op) (s : Series Point Limit)
  : Series Point Limit :=
  fold_left (fun acc o => apply_op o acc) ops s.

(** No [remove] since the last recomputation of the statistics
    ([reset] or [resetStats]); [b] is the answer for the calls so far. *)
Definition stats_current_after (b : bool) (o : Op) : bool :=
  match o with
  | OpAdd _ _ => b
  | OpRemove _ => false
  | OpReset _ => true
  | OpResetStats => true
  end.

Definition stats_current (ops : list Op) : bool :=
  fold_left stats_current_after ops true.

(** The statistics describe the stored points: absent exactly when nothing
    is stored, otherwise the two bounds are the least and the greatest
    y value stored. *)
Definition stats_describe (st : option (Stats Point)) (ys : list Z) : Prop :=
  match st with
  | None => ys = []
  | Some st => is_minimum (minValue st) ys ∧ is_maximum (maxValue st) ys
  end.

Definition stats_reflect_data (s : Series Point Limit) : Prop :=
  stats_describe (stats s) (yvals s).

(** The state [add] builds when it does insert, at index [r]. *)
Definition inserted_at (r : nat) (p : Point) (s : Series Point Limit)
  : Series Point Limit :=
  let s2 := set_limit p (evaluate p) (updateStats p s) in
  emit (EvAdd p (Z.of_nat r) (self s))
    (set_data (take r (data s) ++ p :: drop r (data s)) s2).

Definition is_remove_event (e : Event Point) : bool :=
  match e with EvRemove _ _ _ => true | _ => false end.
Definition is_reset_event (e : Event Point) : bool :=
  match e with EvReset => true | _ => false end.
Definition is_add_event (e : Event Point) : bool :=
  match e with EvAdd _ _ _ => true | _ => false end.



(** How many of the emitted events satisfy [f]. *)
Definition count_events (f : Event Point → bool) (s : Series Point Limit)
  : nat :=
  length (List.filter f (emitted s)).

(** How many stored points have their x value outside the range. *)
Definition count_outside (range_min range_max : Z) (s : Series Point Limit)
  : nat :=
  length (filter (fun x => in_range range_min range_max x = false) (xvals s)).
End Operations.

(** ** A concrete series for the examples

    A datum is a reference (a number), a timestamp and a sample value; the
    limit evaluator flags samples above 100; a range bound formats and
    parses back to itself. *)
Module Demo.
Definition Datum : Type := nat * (Z * Z).

#[global] Instance demo_collaborators : Collaborators Datum bool := {|
  getXVal := fun p => fst (snd p);
  getYVal := fun p => snd (snd p);
  evaluate := fun p => 100 <? snd (snd p);
  boundPoint := fun v => (0%nat, (v, 0))
|}.

(** The datum with reference [S i], timestamp [x] and sample [2 * x]. *)
Definition datum (i : nat) (x : Z) : Datum := (S i, (x, 2 * x)).

(** A series already holding data with the timestamps [xs]. *)
Definition holding (xs : list Z) : Series Datum bool :=
  mkSeries 7%nat (imap datum xs) None ∅ [].

(** The timestamps [from], [from + step], ... ([n] of them). *)
Definition timestamps (from step : Z) (n : nat) : list Z :=
  (fun i => from + step * Z.of_nat i) <$> seq 0 n.
End Demo.

(** ** Further vocabulary: extreme points, annotations, subscribers, calls *)

Section Observations.
Context {Point : Type} `{Countable Point}.
Context {Limit : Type} `{!Collaborators Point Limit}.

(** [p] is stored in [l], no point of [l] has a smaller y value, and every
    point before the first position of [p] has a strictly greater one:
    [p] is the first point, in order, with the least y value. *)
Definition first_with_least_y (p : Point) (l : list Point) : Prop :=
  ∃ i : nat, l !! i = Some p
    ∧ (∀ q, q ∈ l → getYVal p <= getYVal q)
    ∧ (∀ j q, (j < i)%nat → l !! j = Some q → getYVal p < getYVal q).

Definition first_with_greatest_y (p : Point) (l : list Point) : Prop :=
  ∃ i : nat, l !! i = Some p
    ∧ (∀ q, q ∈ l → getYVal q <= getYVal p)
    ∧ (∀ j q, (j < i)%nat → l !! j = Some q → getYVal q < getYVal p).

(** The statistics name the first extreme points of [l]. *)
Definition stats_name_first_extremes (st : option (Stats Point))
    (l : list Point) : Prop :=
  match st with
  | None => l = []
  | Some st =>
      first_with_least_y (minPoint st) l
      ∧ getYVal (minPoint st) = minValue st
      ∧ first_with_greatest_y (maxPoint st) l
      ∧ getYVal (maxPoint st) = maxValue st
  end.

(** Every stored point carries the limit the evaluator gives it. *)
Definition annotated (s : Series Point Limit) : Prop :=
  ∀ p, p ∈ data s → limits s !! p = Some (evaluate p).

(** What a subscriber that mirrors the buffer does with an event: it
    applies the splice the event describes to its own copy. *)
Definition mirror_event (mirror : list Point) (e : Event Point)
  : list Point :=
  match e with
  | EvReset => []
  | EvLoad => mirror
  | EvAdd point index _ => JsArray.splice mirror index 0 [point]
  | EvRemove _ index _ => JsArray.splice mirror index 1 []
  end.

Definition replay (events : list (Event Point)) : list Point :=
  fold_left mirror_event events [].

(** Calls of the mutating methods, the purge included. *)
Inductive Call : Type :=
| Mutate (o : @Op Point)
| Purge (range_min range_max : Z).

Definition apply_call (c : Call) (s : Series Point Limit)
  : Series Point Limit :=
  match c with
  | Mutate o => apply_op o s
  | Purge range_min range_max =>
      purgeRecordsOutsideRange range_min range_max s
  end.

Definition run_calls (calls : list Call) (s : Series Point Limit)
  : Series Point Limit :=
  fold_left (fun acc c => apply_call c acc) calls s.

(** The calls that respect the caller contract of the buffer: no
    append-only [add] (it skips the order and duplicate checks), and
    [reset] seeded only with strictly ascending data. *)
Definition within_contract (c : Call) : bool :=
  match c with
  | Mutate (OpAdd _ appendOnly) => negb appendOnly
  | Mutate (OpReset (Some points)) => strictly_ascending (getXVal <$> points)
  | _ => true
  end.
End Observations.

(** * Properties *)

(** ** JavaScript arrays *)

Section JsArrayFacts.
Context {A : Type} `{EqDecision A}.
Implicit Types (array : list A) (x : A).

Lemma get_of_nat array (i : nat) :
  JsArray.get array (Z.of_nat i) = array !! i.
Proof.
  unfold JsArray.get.
  destruct (Z.ltb_spec (Z.of_nat i) 0) as [Hneg|_]; [lia|].
  by rewrite Nat2Z.id.
Qed.

Lemma get_negative array (i : Z) : i < 0 → JsArray.get array i = None.
Proof.
  intros Hneg. unfold JsArray.get.
  by destruct (Z.ltb_spec i 0) as [_|Hge]; [|lia].
Qed.

Lemma clamp_index_in_range (len i : Z) :
  0 <= i <= len → JsArray.clamp_index len i = i.
Proof.
  intros Hi. unfold JsArray.clamp_index.
  destruct (Z.ltb_spec i 0); lia.
Qed.

(** [splice(k, 0, x)] inserts [x] in front of position [k]. *)
Lemma splice_insert array (k : nat) x :
  (k <= length array)%nat →
  JsArray.splice array (Z.of_nat k) 0 [x] = take k array ++ x :: drop k array.
Proof.
  intros Hk. unfold JsArray.splice.
  rewrite clamp_index_in_range by lia.
  replace (Z.of_nat k + _) with (Z.of_nat k) by lia.
  by rewrite Nat2Z.id.
Qed.

(** [splice(k, 1)] at a valid index deletes the element at [k]. *)
Lemma splice_delete array (k : nat) :
  (k < length array)%nat →
  JsArray.splice array (Z.of_nat k) 1 [] = take k array ++ drop (S k) array.
Proof.
  intros Hk. unfold JsArray.splice.
  rewrite clamp_index_in_range by lia.
  replace (Z.of_nat k + _) with (Z.of_nat (S k)) by lia.
  by rewrite !Nat2Z.id.
Qed.

(** [splice(-1, 1)] deletes the last element. *)
Lemma splice_minus_one array :
  JsArray.splice array (-1) 1 [] = take (length array - 1) array.
Proof.
  unfold JsArray.splice, JsArray.clamp_index.
  change (-1 <? 0) with true. cbv iota.
  destruct array as [|x array]; [done|].
  set (len := length (x :: array)).
  assert (Hlen : (1 <= len)%nat) by (subst len; simpl; lia).
  replace (Z.max (Z.of_nat len + -1) 0) with (Z.of_nat (len - 1)) by lia.
  replace (Z.of_nat (len - 1) + _) with (Z.of_nat len) by lia.
  rewrite !Nat2Z.id. subst len.
  by rewrite drop_all, app_nil_r.
Qed.

Lemma indexOf_from_not_elem array x (i : Z) :
  x ∉ array → JsArray.indexOf_from array x i = -1.
Proof.
  revert i. induction array as [|y array IH]; intros i Hx; [done|].
  simpl. apply not_elem_of_cons in Hx as [Hne Hx].
  destruct (decide (y = x)); [congruence|]. by apply IH.
Qed.

(** [indexOf] finds the first position of a stored element. *)
Lemma indexOf_from_elem array x (i : Z) :
  x ∈ array →
  ∃ k : nat, JsArray.indexOf_from array x i = i + Z.of_nat k
             ∧ array !! k = Some x ∧ x ∉ take k array.
Proof.
  revert i. induction array as [|y array IH]; intros i Hx.
  - by apply elem_of_nil in Hx.
  - simpl. destruct (decide (y = x)) as [->|Hne].
    + exists 0%nat. repeat split; [lia|apply not_elem_of_nil].
    + apply elem_of_cons in Hx as [->|Hx]; [done|].
      destruct (IH (i + 1) Hx) as (k & Hk & Hlook & Hfirst).
      exists (S k). repeat split; [lia|done|].
      simpl. apply not_elem_of_cons. split; [congruence|done].
Qed.

Lemma forEach_app {S : Type} (f : A → S → S) array1 array2 (this : S) :
  JsArray.forEach f (array1 ++ array2) this
  = JsArray.forEach f array2 (JsArray.forEach f array1 this).
Proof. unfold JsArray.forEach. apply fold_left_app. Qed.
End JsArrayFacts.

(** ** Strictly ascending lists *)

Lemma strictly_ascending_sorted (l : list Z) :
  strictly_ascending l = true ↔ StronglySorted Z.lt l.
Proof.
  split.
  - intros Hasc. apply Sorted_StronglySorted; [intros ???; lia|].
    induction l as [|x l IH]; [constructor|].
    destruct l as [|y l]; [by repeat constructor|].
    simpl in Hasc. apply andb_true_iff in Hasc as [Hxy Hrest].
    constructor; [by apply IH|]. constructor. lia.
  - intros Hs. apply StronglySorted_Sorted in Hs.
    induction Hs as [|x l Hs IH Hhd]; [done|].
    destruct l as [|y l]; [done|].
    simpl. apply andb_true_iff. split; [|by apply IH].
    inversion Hhd; subst. lia.
Qed.

Lemma StronglySorted_lookup_lt (l : list Z) (i j : nat) (a b : Z) :
  StronglySorted Z.lt l → l !! i = Some a → l !! j = Some b →
  (i < j)%nat → a < b.
Proof.
  intros Hs. revert i j. induction Hs as [|x l Hs IH Hall]; intros i j Hi Hj Hij.
  - by rewrite lookup_nil in Hi.
  - destruct j as [|j]; [lia|]. simpl in Hj.
    destruct i as [|i]; simpl in Hi.
    + injection Hi as <-. rewrite Forall_lookup in Hall. by eapply Hall.
    + apply (IH i j); [done|done|lia].
Qed.

Lemma StronglySorted_lookup_le (l : list Z) (i j : nat) (a b : Z) :
  StronglySorted Z.lt l → l !! i = Some a → l !! j = Some b →
  (i <= j)%nat → a <= b.
Proof.
  intros Hs Hi Hj Hij.
  destruct (decide (i = j)) as [->|Hne].
  - rewrite Hi in Hj. injection Hj as ->. lia.
  - assert (a < b); [|lia].
    eapply StronglySorted_lookup_lt; [done..|lia].
Qed.

(** ** The binary search *)

Section LodashFacts.
Context {A : Type} (iteratee : A → Z).
Implicit Types (array : list A) (v : Z).

Lemma midpoint_bounds (low high : nat) :
  (low < high)%nat →
  (low <= Nat.div (low + high) 2 < high)%nat.
Proof.
  intros Hlt.
  pose proof (Nat.div_mod_eq (low + high) 2) as Hdiv.
  pose proof (Nat.mod_upper_bound (low + high) 2) as Hmod.
  lia.
Qed.

(** The loop ends within [high - low] rounds: with at least that much
    fuel its result does not depend on the fuel. *)
Lemma binaryIndexBy_loop_fuel (fuel1 fuel2 : nat) array v (low high : nat) :
  (high - low <= fuel1)%nat → (high - low <= fuel2)%nat →
  Lodash.binaryIndexBy_loop iteratee fuel1 array v low high
  = Lodash.binaryIndexBy_loop iteratee fuel2 array v low high.
Proof.
  revert fuel2 low high.
  induction fuel1 as [|fuel1 IH]; intros fuel2 low high H1 H2.
  - destruct fuel2 as [|fuel2]; cbn [Lodash.binaryIndexBy_loop]; [done|].
    destruct (Nat.ltb_spec low high); [lia|done].
  - destruct fuel2 as [|fuel2]; cbn [Lodash.binaryIndexBy_loop].
    + destruct (Nat.ltb_spec low high); [lia|done].
    + destruct (Nat.ltb_spec low high) as [Hlt|]; [|done].
      pose proof (midpoint_bounds low high Hlt) as Hmid.
      destruct (array !! Nat.div (low + high) 2) as [x|];
        [destruct (iteratee x <? v)|]; apply IH; lia.
Qed.

(** On an array whose keys ascend, the loop narrows [low, high] around
    the leftmost insertion point. *)
Lemma binaryIndexBy_loop_spec (fuel : nat) array v (low high : nat) :
  StronglySorted Z.lt (iteratee <$> array) →
  (low <= high <= length array)%nat → (high - low <= fuel)%nat →
  (∀ j x, (j < low)%nat → array !! j = Some x → iteratee x < v) →
  (∀ j x, (high <= j)%nat → array !! j = Some x → v <= iteratee x) →
  ∃ r : nat,
    Lodash.binaryIndexBy_loop iteratee fuel array v low high = r
    ∧ (low <= r <= high)%nat
    ∧ (∀ j x, (j < r)%nat → array !! j = Some x → iteratee x < v)
    ∧ (∀ j x, (r <= j)%nat → array !! j = Some x → v <= iteratee x).
Proof.
  intros Hsorted. revert low high.
  induction fuel as [|fuel IH]; intros low high Hbounds Hfuel Hbelow Habove.
  - exists high. cbn [Lodash.binaryIndexBy_loop]. repeat split; [lia..| |done].
    intros j x Hj. apply Hbelow. lia.
  - cbn [Lodash.binaryIndexBy_loop].
    destruct (Nat.ltb_spec low high) as [Hlt|Hge].
    + pose proof (midpoint_bounds low high Hlt) as Hmid.
      set (mid := Nat.div (low + high) 2) in *.
      destruct (lookup_lt_is_Some_2 array mid) as [xm Hxm]; [lia|].
      rewrite Hxm.
      assert (Hkey : ∀ j x, array !! j = Some x →
                (iteratee <$> array) !! j = Some (iteratee x)).
      { intros j x Hjx. by rewrite list_lookup_fmap, Hjx. }
      destruct (Z.ltb_spec (iteratee xm) v) as [Hxmv|Hxmv].
      * destruct (IH (mid + 1)%nat high) as (r & Hr & Hrb & Hlo & Hhi);
          [lia|lia| |done|].
        { intros j x Hj Hjx.
          pose proof (StronglySorted_lookup_le _ j mid _ _ Hsorted
                        (Hkey _ _ Hjx) (Hkey _ _ Hxm)). lia. }
        exists r. repeat split; [done|lia|lia|done|done].
      * destruct (IH low mid) as (r & Hr & Hrb & Hlo & Hhi);
          [lia|lia|done| |].
        { intros j x Hj Hjx.
          pose proof (StronglySorted_lookup_le _ mid j _ _ Hsorted
                        (Hkey _ _ Hxm) (Hkey _ _ Hjx)). lia. }
        exists r. repeat split; [done|lia|lia|done|done].
    + exists high. repeat split; [lia..| |done].
      intros j x Hj. apply Hbelow. lia.
Qed.

(** [sortedIndex] on ascending keys: everything before the index is below
    the searched key, everything from the index on is at or above it. *)
Lemma sortedIndex_spec array (value : A) :
  StronglySorted Z.lt (iteratee <$> array) →
  let r := Lodash.sortedIndex iteratee array value in
  (r <= length array)%nat
  ∧ (∀ j x, (j < r)%nat → array !! j = Some x → iteratee x < iteratee value)
  ∧ (∀ j x, (r <= j)%nat → array !! j = Some x → iteratee value <= iteratee x).
Proof.
  intros Hsorted. unfold Lodash.sortedIndex.
  destruct (binaryIndexBy_loop_spec (length array) array (iteratee value)
              0 (length array) Hsorted) as (r & Hr & Hrb & Hlo & Hhi);
    [lia|lia| | |].
  - intros j x Hj. lia.
  - intros j x Hj Hjx. apply lookup_lt_Some in Hjx. lia.
  - rewrite Hr. simpl. repeat split; [lia|done|done].
Qed.

(** The index is within the array whatever its contents. *)
Lemma binaryIndexBy_loop_bounds (fuel : nat) array v (low high : nat) :
  (low <= high)%nat →
  (low <= Lodash.binaryIndexBy_loop iteratee fuel array v low high <= high)%nat.
Proof.
  revert low high. induction fuel as [|fuel IH]; intros low high Hle.
  - cbn [Lodash.binaryIndexBy_loop]. lia.
  - cbn [Lodash.binaryIndexBy_loop].
    destruct (Nat.ltb_spec low high) as [Hlt|Hge]; [|lia].
    pose proof (midpoint_bounds low high Hlt) as Hmid.
    destruct (array !! Nat.div (low + high) 2) as [x|];
      [destruct (iteratee x <? v)|].
    + specialize (IH (Nat.div (low + high) 2 + 1)%nat high). lia.
    + specialize (IH low (Nat.div (low + high) 2)). lia.
    + specialize (IH low (Nat.div (low + high) 2)). lia.
Qed.

Lemma sortedIndex_le_length array (value : A) :
  (Lodash.sortedIndex iteratee array value <= length array)%nat.
Proof.
  unfold Lodash.sortedIndex.
  pose proof (binaryIndexBy_loop_bounds (length array) array
                (iteratee value) 0 (length array)). lia.
Qed.
End LodashFacts.

(** ** The series: frames and the two outcomes of [add] *)

Section SeriesFacts.
Context {Point : Type} `{Countable Point}.
Context {Limit : Type} `{!Collaborators Point Limit}.
Implicit Types (s : Series Point Limit) (p q : Point).

Lemma updateStats_frame p s :
  data (updateStats p s) = data s
  ∧ self (updateStats p s) = self s
  ∧ limits (updateStats p s) = limits s
  ∧ emitted (updateStats p s) = emitted s.
Proof.
  unfold updateStats. destruct (stats s) as [st|]; [|done].
  by destruct (_ || _).
Qed.

(** The statistics after [updateStats] depend on the statistics before
    and on the point only. *)
Lemma updateStats_stats p s s' :
  stats s = stats s' → stats (updateStats p s) = stats (updateStats p s').
Proof.
  intros Heq. unfold updateStats. rewrite <- Heq.
  destruct (stats s) as [st|] eqn:Hst; [|done].
  destruct (_ || _); [done|]. simpl. congruence.
Qed.

Lemma forEach_updateStats_frame (l : list Point) s :
  data (JsArray.forEach updateStats l s) = data s
  ∧ self (JsArray.forEach updateStats l s) = self s
  ∧ limits (JsArray.forEach updateStats l s) = limits s
  ∧ emitted (JsArray.forEach updateStats l s) = emitted s.
Proof.
  revert s. induction l as [|p l IH]; intros s; [done|].
  unfold JsArray.forEach in *. simpl.
  destruct (IH (updateStats p s)) as (-> & -> & -> & ->).
  apply updateStats_frame.
Qed.

Lemma forEach_updateStats_stats (l : list Point) s s' :
  stats s = stats s' →
  stats (JsArray.forEach updateStats l s)
  = stats (JsArray.forEach updateStats l s').
Proof.
  revert s s'. induction l as [|p l IH]; intros s s' Heq; [done|].
  unfold JsArray.forEach in *. simpl.
  apply IH. by apply updateStats_stats.
Qed.

Lemma xval_at_of_nat s (i : nat) :
  xval_at s (Z.of_nat i) = getXVal <$> data s !! i.
Proof. unfold xval_at. by rewrite get_of_nat. Qed.

Lemma xvals_lookup s (j : nat) q :
  data s !! j = Some q → xvals s !! j = Some (getXVal q).
Proof. intros Hj. unfold xvals. by rewrite list_lookup_fmap, Hj. Qed.

(** On a strictly ascending buffer, [add] with the duplicate check either
    finds a stored point with the x value of the new one and returns the
    series as it is, or no stored point has that x value and the new point
    goes between the points below and the points above it. *)
Lemma add_checked_outcome p s :
  StronglySorted Z.lt (xvals s) →
  let r := Lodash.sortedIndex getXVal (data s) p in
  ((∃ q, q ∈ data s ∧ getXVal q = getXVal p) ∧ add p false s = s)
  ∨ ((∀ q, q ∈ data s → getXVal q ≠ getXVal p)
     ∧ add p false s = inserted_at r p s
     ∧ (r <= length (data s))%nat
     ∧ Forall (fun q => getXVal q < getXVal p) (take r (data s))
     ∧ Forall (fun q => getXVal p < getXVal q) (drop r (data s))).
Proof.
  intros Hsorted r.
  destruct (sortedIndex_spec getXVal (data s) p Hsorted)
    as (Hlen & Hbelow & Habove).
  fold r in Hlen, Hbelow, Habove.
  assert (Hprev : xval_at s (Z.of_nat r - 1) ≠ Some (getXVal p)).
  { destruct r as [|r'] eqn:Hr.
    - unfold xval_at. by rewrite get_negative by lia.
    - replace (Z.of_nat (S r') - 1) with (Z.of_nat r') by lia.
      rewrite xval_at_of_nat.
      destruct (data s !! r') as [ql|] eqn:Hql; [|done].
      simpl. intros [= Heq].
      pose proof (Hbelow r' ql ltac:(lia) Hql). lia. }
  unfold add, sortedIndex. fold r. simpl negb. cbv iota.
  rewrite !andb_true_l.
  destruct (data s !! r) as [qr|] eqn:Hqr.
  - pose proof (Habove r qr ltac:(lia) Hqr) as Hqr_ge.
    destruct (decide (getXVal qr = getXVal p)) as [Heq|Hne].
    + left. split.
      * exists qr. split; [by eapply list_elem_of_lookup_2|done].
      * rewrite bool_decide_eq_true_2; [done|].
        rewrite xval_at_of_nat, Hqr. simpl. by rewrite Heq.
    + right.
      assert (Hafter : ∀ j q, (r <= j)%nat → data s !! j = Some q →
                getXVal p < getXVal q).
      { intros j q Hj Hjq.
        pose proof (StronglySorted_lookup_le _ r j _ _ Hsorted
                      (xvals_lookup _ _ _ Hqr) (xvals_lookup _ _ _ Hjq) Hj).
        lia. }
      rewrite bool_decide_eq_false_2;
        [|rewrite xval_at_of_nat, Hqr; simpl; congruence].
      rewrite bool_decide_eq_false_2 by done.
      split; [|split; [|split; [done|split]]].
      * intros q Hq Heq. apply list_elem_of_lookup_1 in Hq as [j Hj].
        destruct (Nat.lt_ge_cases j r) as [Hlt|Hge].
        -- pose proof (Hbelow j q Hlt Hj). lia.
        -- pose proof (Hafter j q Hge Hj). lia.
      * unfold inserted_at. simpl.
        destruct (updateStats_frame p s) as (Hd & Hs & _ & _).
        rewrite Hd, Hs. by rewrite splice_insert by done.
      * apply Forall_lookup. intros j q Hj.
        apply lookup_take_Some in Hj as [Hj Hjr]. by eapply Hbelow.
      * apply Forall_lookup. intros j q Hj.
        rewrite lookup_drop in Hj. eapply Hafter; [|done]. lia.
  - right. apply lookup_ge_None in Hqr.
    rewrite bool_decide_eq_false_2;
      [|rewrite xval_at_of_nat, (proj2 (lookup_ge_None _ _) Hqr); done].
    rewrite bool_decide_eq_false_2 by done.
    split; [|split; [|split; [done|split]]].
    + intros q Hq Heq. apply list_elem_of_lookup_1 in Hq as [j Hj].
      pose proof (lookup_lt_Some _ _ _ Hj).
      pose proof (Hbelow j q ltac:(lia) Hj). lia.
    + unfold inserted_at. simpl.
      destruct (updateStats_frame p s) as (Hd & Hs & _ & _).
      rewrite Hd, Hs. by rewrite splice_insert by done.
    + apply Forall_lookup. intros j q Hj.
      apply lookup_take_Some in Hj as [Hj Hjr]. by eapply Hbelow.
    + rewrite drop_ge by done. constructor.
Qed.
End SeriesFacts.

(** ** Ordering and duplicate suppression *)

Section Ordering.
Context {Point : Type} `{Countable Point}.
Context {Limit : Type} `{!Collaborators Point Limit}.
Implicit Types (s : Series Point Limit) (p q : Point).

Lemma filter_none {A : Type} (P : A → Prop) `{∀ x, Decision (P x)}
    (l : list A) :
  Forall (fun x => ¬ P x) l → filter P l = [].
Proof.
  induction 1 as [|x l Hx Hl IH]; [done|].
  by rewrite filter_cons_False.
Qed.

(** An insertion between the points below and the points above keeps the
    x values strictly ascending. *)
Lemma inserted_at_sorted (r : nat) p s :
  StronglySorted Z.lt (xvals s) →
  Forall (fun q => getXVal q < getXVal p) (take r (data s)) →
  Forall (fun q => getXVal p < getXVal q) (drop r (data s)) →
  StronglySorted Z.lt (xvals (inserted_at r p s)).
Proof.
  intros Hsorted Hbelow Habove.
  unfold xvals in *. simpl.
  rewrite <- (take_drop r (data s)), fmap_app in Hsorted.
  apply StronglySorted_app in Hsorted as (Hcross & Hl & Hr).
  rewrite fmap_app, fmap_cons.
  apply StronglySorted_app. split; [|split; [done|]].
  - intros x1 x2 Hx1 Hx2.
    apply list_elem_of_fmap in Hx1 as (q1 & -> & Hq1).
    rewrite Forall_forall in Hbelow. specialize (Hbelow q1 Hq1).
    apply elem_of_cons in Hx2 as [->|Hx2]; [done|].
    apply list_elem_of_fmap in Hx2 as (q2 & -> & Hq2).
    rewrite Forall_forall in Habove. specialize (Habove q2 Hq2). lia.
  - apply StronglySorted_cons. split; [|done].
    by apply Forall_fmap.
Qed.

Lemma add_checked_sorted p s :
  StronglySorted Z.lt (xvals s) →
  StronglySorted Z.lt (xvals (add p false s)).
Proof.
  intros Hsorted.
  destruct (add_checked_outcome p s Hsorted)
    as [[_ ->]|(_ & -> & _ & Hbelow & Habove)]; [done|].
  by apply inserted_at_sorted.
Qed.

(** C4 (sort invariant): for every sequence of points fed to
    [add(point, false)] one after the other into a new, empty series, in
    whatever order they arrive, the stored points are strictly ascending
    by x value after each call, that is after every prefix [take n] of
    the sequence: sorted, and no two stored points with the same x
    value. *)
Theorem add_sequence_strictly_ascending (points : list Point) (n id : nat) :
  strictly_ascending
    (xvals (JsArray.forEach (fun p => add p false) (take n points)
              (new_series id : Series Point Limit))) = true.
Proof.
  apply strictly_ascending_sorted.
  generalize (take n points). clear points n. intros points.
  assert (Hinit : StronglySorted Z.lt
                    (xvals (new_series id : Series Point Limit)))
    by constructor.
  revert Hinit. generalize (new_series id : Series Point Limit).
  induction points as [|p points IH]; intros s Hs; [done|].
  unfold JsArray.forEach in *. simpl.
  apply IH. by apply add_checked_sorted.
Qed.

(** C3 (duplicate suppression): on a buffer that is strictly ascending by
    x value, [add(p, false)] for a point [p] whose x value equals that of
    some stored point returns the series as it was: same points, same
    statistics, same limit annotations, nothing emitted (so no [add]
    event).  Consequently, when no stored point has the x value of [p],
    inserting [p] and then any [p'] with the same x value (the two may
    arrive in either order: the statement is symmetric in them) stores
    the first and rejects the second, and exactly one stored point has
    that x value. *)
Theorem add_duplicate_x_is_noop p s :
  strictly_ascending (xvals s) = true →
  ((∃ q, q ∈ data s ∧ getXVal q = getXVal p) → add p false s = s)
  ∧ (∀ p',
       (∀ q, q ∈ data s → getXVal q ≠ getXVal p) →
       getXVal p' = getXVal p →
       add p' false (add p false s) = add p false s
       ∧ filter (fun q => getXVal q = getXVal p) (data (add p false s))
         = [p]).
Proof.
  intros Hasc. apply strictly_ascending_sorted in Hasc.
  split.
  - intros (q & Hq & Heq).
    destruct (add_checked_outcome p s Hasc) as [[_ ->]|(Hnone & _)]; [done|].
    by specialize (Hnone q Hq).
  - intros p' Hfresh Hx.
    pose proof (add_checked_sorted p s Hasc) as Hasc1.
    destruct (add_checked_outcome p s Hasc)
      as [[(q & Hq & Heq) _]|(_ & Hadd & Hlen & Hbelow & Habove)];
      [by specialize (Hfresh q Hq)|].
    assert (Hdata : data (add p false s)
                    = take (Lodash.sortedIndex getXVal (data s) p) (data s)
                      ++ p :: drop (Lodash.sortedIndex getXVal (data s) p)
                                (data s)) by by rewrite Hadd.
    split.
    + destruct (add_checked_outcome p' (add p false s) Hasc1)
        as [[_ ->]|(Hnone & _)]; [done|].
      exfalso. apply (Hnone p); [|done].
      rewrite Hdata. apply elem_of_app. right. apply elem_of_cons. by left.
    + rewrite Hdata, filter_app, filter_cons_True by done.
      rewrite !filter_none; [done| |].
      * eapply Forall_impl; [exact Habove|]. simpl. intros; lia.
      * eapply Forall_impl; [exact Hbelow|]. simpl. intros; lia.
Qed.
End Ordering.

(** ** Statistics *)

Section Statistics.
Context {Point : Type} `{Countable Point}.
Context {Limit : Type} `{!Collaborators Point Limit}.
Implicit Types (s : Series Point Limit) (p q : Point).

(** [updateStats] extends a correct description by one y value. *)
Lemma updateStats_describe p s (ys ys' : list Z) :
  stats_describe (stats s) ys →
  (∀ y, y ∈ ys' ↔ y = getYVal p ∨ y ∈ ys) →
  stats_describe (stats (updateStats p s)) ys'.
Proof.
  intros Hdesc Hys'. unfold updateStats.
  destruct (stats s) as [st|] eqn:Hst; simpl in Hdesc.
  - destruct Hdesc as [[Hmin_in Hmin] [Hmax_in Hmax]].
    destruct (Z.ltb_spec (maxValue st) (getYVal p)) as [Hgt|Hle];
      cbv iota; simpl minValue;
      destruct (Z.gtb_spec (minValue st) (getYVal p)) as [Hlt|Hge];
      simpl; rewrite ?Hst; simpl;
      (split; split;
       [apply Hys'; auto
       |intros y Hy; apply Hys' in Hy as [->|Hy];
        [lia|first [specialize (Hmin y Hy)|specialize (Hmax y Hy)]; lia]
       |apply Hys'; auto
       |intros y Hy; apply Hys' in Hy as [->|Hy];
        [lia|first [specialize (Hmax y Hy)|specialize (Hmin y Hy)]; lia]]).
  - simpl. subst ys.
    split; split;
      [apply Hys'; auto
      |intros y Hy; apply Hys' in Hy as [->|Hy];
       [lia|by apply elem_of_nil in Hy]
      |apply Hys'; auto
      |intros y Hy; apply Hys' in Hy as [->|Hy];
       [lia|by apply elem_of_nil in Hy]].
Qed.

(** Folding [updateStats] over [l] extends a description of [pre] to a
    description of [pre ++ l]. *)
Lemma forEach_updateStats_describe (l pre : list Point) s :
  stats_describe (stats s) (getYVal <$> pre) →
  stats_describe (stats (JsArray.forEach updateStats l s))
    (getYVal <$> (pre ++ l)).
Proof.
  revert pre s. induction l as [|p l IH]; intros pre s Hdesc.
  - by rewrite app_nil_r.
  - unfold JsArray.forEach in *. simpl.
    replace (pre ++ p :: l) with ((pre ++ [p]) ++ l)
      by by rewrite <- app_assoc.
    apply IH. eapply updateStats_describe; [exact Hdesc|].
    intros y. rewrite fmap_app, elem_of_app. simpl.
    rewrite list_elem_of_singleton. tauto.
Qed.

(** [resetStats] recomputes the statistics from whatever is stored. *)
Lemma resetStats_reflect s : stats_reflect_data (resetStats s).
Proof.
  unfold stats_reflect_data, resetStats, yvals.
  destruct (forEach_updateStats_frame (data s) (set_stats None s))
    as (-> & _).
  simpl. by apply (forEach_updateStats_describe (data s) []).
Qed.

(** [add] returns the series unchanged or inserts at an index within the
    array, whether or not the buffer is sorted. *)
Lemma add_outcome p (appendOnly : bool) s :
  add p appendOnly s = s
  ∨ ∃ r : nat, (r <= length (data s))%nat
               ∧ (appendOnly = true → r = length (data s))
               ∧ add p appendOnly s = inserted_at r p s.
Proof.
  assert (Hins : ∀ r : nat, (r <= length (data s))%nat →
    emit (EvAdd p (Z.of_nat r)
            (self (set_data
               (JsArray.splice
                  (data (set_limit p (evaluate p) (updateStats p s)))
                  (Z.of_nat r) 0 [p])
               (set_limit p (evaluate p) (updateStats p s)))))
      (set_data
         (JsArray.splice (data (set_limit p (evaluate p) (updateStats p s)))
            (Z.of_nat r) 0 [p])
         (set_limit p (evaluate p) (updateStats p s)))
    = inserted_at r p s).
  { intros r Hr. unfold inserted_at. simpl.
    destruct (updateStats_frame p s) as (Hd & Hs & _ & _).
    rewrite Hd, Hs. by rewrite splice_insert by done. }
  unfold add. destruct appendOnly; simpl negb; cbv iota.
  - right. exists (length (data s)). split; [done|split; [done|]].
    rewrite !andb_false_l. by apply Hins.
  - rewrite !andb_true_l.
    destruct (bool_decide _); [by left|].
    destruct (bool_decide _); [by left|].
    right. exists (Lodash.sortedIndex getXVal (data s) p).
    split; [apply sortedIndex_le_length|split; [done|]].
    unfold sortedIndex. apply Hins. apply sortedIndex_le_length.
Qed.

Lemma add_reflect p (appendOnly : bool) s :
  stats_reflect_data s → stats_reflect_data (add p appendOnly s).
Proof.
  intros Hs.
  destruct (add_outcome p appendOnly s) as [->|(r & Hr & _ & ->)]; [done|].
  unfold stats_reflect_data, yvals, inserted_at. simpl.
  eapply updateStats_describe; [exact Hs|].
  intros y. unfold yvals.
  rewrite <- (take_drop r (data s)) at 3.
  rewrite !fmap_app, fmap_cons, !elem_of_app, elem_of_cons. tauto.
Qed.

Lemma addPoints_reflect (points : list Point) (appendOnly : bool) s :
  stats_reflect_data s → stats_reflect_data (addPoints points appendOnly s).
Proof.
  revert s. induction points as [|p points IH]; intros s Hs; [done|].
  unfold addPoints, JsArray.forEach in *. simpl.
  apply IH. by apply add_reflect.
Qed.

Lemma reset_reflect (newData : option (list Point)) s :
  stats_reflect_data (reset newData s).
Proof.
  assert (Hcleared : stats_reflect_data
                       (emit EvReset (resetStats (set_data [] s)))) by done.
  unfold reset. destruct newData as [points|]; [|done].
  by apply addPoints_reflect.
Qed.
End Statistics.

Section StatisticsClaims.
Context {Point : Type} `{Countable Point}.
Context {Limit : Type} `{!Collaborators Point Limit}.
Implicit Types (s : Series Point Limit) (p q : Point).

Lemma run_reflect (ops : list Op) (b : bool) s :
  (b = true → stats_reflect_data s) →
  fold_left stats_current_after ops b = true →
  stats_reflect_data (run ops s).
Proof.
  revert b s. induction ops as [|o ops IH]; intros b s Hs Hcur.
  - simpl in *. by apply Hs.
  - simpl in *. apply (IH (stats_current_after b o)); [|done].
    destruct o as [p appendOnly|p|newData|]; simpl.
    + intros Hb. apply add_reflect. by apply Hs.
    + done.
    + intros _. apply reset_reflect.
    + intros _. apply resetStats_reflect.
Qed.

(** C5, as amended: after every sequence of [add], [remove], [reset] and
    [resetStats] calls on a series created empty in which no [remove]
    comes after the last [reset] or [resetStats] (in particular after
    every sequence of [add] and [reset] calls), the statistics are absent
    exactly when no point is stored, and otherwise [minValue] and
    [maxValue] are the least and the greatest y value over the stored
    points. *)
Theorem stats_reflect_data_when_current (ops : list Op) (id : nat) :
  stats_current ops = true →
  stats_reflect_data (run ops (new_series id : Series Point Limit)).
Proof.
  intros Hcur. by apply (run_reflect ops true).
Qed.

(** C9 (frame of [remove]): for a point [p] stored in the buffer, with
    [i] the first index holding it, [remove(p)] yields the series whose
    points are the former ones with position [i] excised, whose
    statistics and limit annotations are the former ones untouched, and
    whose trace has one more event, [remove] carrying [p], the former
    index [i] and the series itself. *)
Theorem remove_stored_point_frame p s :
  p ∈ data s →
  ∃ i : nat,
    data s !! i = Some p ∧ (p ∉ take i (data s))
    ∧ remove p s
      = mkSeries (self s) (delete i (data s)) (stats s) (limits s)
          (emitted s ++ [EvRemove p (Z.of_nat i) (self s)]).
Proof.
  intros Hp.
  destruct (indexOf_from_elem (data s) p 0 Hp) as (i & Hi & Hlook & Hfirst).
  exists i. split; [done|split; [done|]].
  unfold remove, JsArray.indexOf. rewrite Hi, Z.add_0_l.
  pose proof (lookup_lt_Some _ _ _ Hlook) as Hlt.
  rewrite splice_delete, <- delete_take_drop by done.
  reflexivity.
Qed.

(** C10 ([remove] of a point that is not stored): on a non-empty buffer,
    for a point [p] stored at no position, [indexOf] yields -1 and
    [splice(-1, 1)] excises the final element: the buffer loses its last
    point [last], and the [remove] event carries [p] and the index -1.
    Statistics and limit annotations stay as they were. *)
Theorem remove_absent_point_drops_last p s :
  data s ≠ [] → p ∉ data s →
  ∃ (kept : list Point) (last : Point),
    data s = kept ++ [last]
    ∧ remove p s
      = mkSeries (self s) kept (stats s) (limits s)
          (emitted s ++ [EvRemove p (-1) (self s)]).
Proof.
  intros Hne Hp.
  destruct (data s) as [|x l] eqn:Hdata using rev_ind; [done|]. clear IHl.
  exists l, x. split; [done|].
  unfold remove, JsArray.indexOf. rewrite Hdata.
  rewrite indexOf_from_not_elem by done.
  rewrite splice_minus_one, length_app. simpl length.
  replace (length l + 1 - 1)%nat with (length l) by lia.
  by rewrite take_app_length.
Qed.

(** What [addPoints(points, true)] does to a series: the points go to the
    end in order, one [add] event each, the statistics are folded on. *)
Lemma addPoints_append (points : list Point) s :
  data (addPoints points true s) = data s ++ points
  ∧ self (addPoints points true s) = self s
  ∧ emitted (addPoints points true s)
    = emitted s
      ++ imap (fun i p => EvAdd p (Z.of_nat (length (data s) + i)) (self s))
           points
  ∧ stats (addPoints points true s)
    = stats (JsArray.forEach updateStats points s).
Proof.
  revert s. induction points as [|p points IH]; intros s.
  - simpl. by rewrite !app_nil_r.
  - unfold addPoints, JsArray.forEach in *. simpl fold_left.
    destruct (IH (add p true s)) as (Hd & Hs & He & Hst).
    destruct (add_outcome p true s) as [Hsame|(r & _ & Hr & Hadd)].
    { exfalso. apply (f_equal (fun s => length (emitted s))) in Hsame.
      unfold add in Hsame. simpl in Hsame.
      destruct (updateStats_frame p s) as (_ & _ & _ & Hem).
      rewrite Hem, length_app in Hsame. simpl in Hsame. lia. }
    specialize (Hr eq_refl). subst r.
    rewrite Hd, Hs, He, Hst. rewrite Hadd.
    unfold inserted_at. simpl.
    rewrite take_ge, drop_ge by done. simpl.
    rewrite <- !app_assoc. simpl.
    destruct (updateStats_frame p s) as (_ & Hself & _ & Hem).
    rewrite Hself, Hem, Nat.add_0_r.
    repeat split.
    + do 2 f_equal.
      apply imap_ext. intros i x _. simpl.
      rewrite length_app. simpl. do 2 f_equal. lia.
    + by apply forEach_updateStats_stats.
Qed.

(** C8 (append-only reseeding): [reset(newPoints)] is [reset()] followed
    by the append-only bulk insertion of [newPoints]; [reset()] leaves no
    point and no statistics and emits one [reset] event.  For [newPoints]
    strictly ascending by x value (sorted, no duplicate x), the series
    afterwards stores exactly [newPoints] in their order, its statistics
    are those of a fold of [updateStats] over [newPoints] from no
    statistics, the trace gained [reset] followed by one [add] event per
    point at its index, and the buffer is strictly ascending. *)
Theorem reset_reseeds_in_order (newPoints : list Point) s :
  strictly_ascending (getXVal <$> newPoints) = true →
  reset (Some newPoints) s = addPoints newPoints true (reset None s)
  ∧ data (reset None s) = []
  ∧ stats (reset None s) = None
  ∧ emitted (reset None s) = emitted s ++ [EvReset]
  ∧ data (reset (Some newPoints) s) = newPoints
  ∧ stats (reset (Some newPoints) s)
    = stats (JsArray.forEach updateStats newPoints
               (new_series (self s) : Series Point Limit))
  ∧ emitted (reset (Some newPoints) s)
    = emitted s
      ++ EvReset :: imap (fun i p => EvAdd p (Z.of_nat i) (self s)) newPoints
  ∧ strictly_ascending (xvals (reset (Some newPoints) s)) = true.
Proof.
  intros Hasc.
  assert (Hreset : reset (Some newPoints) s
                   = addPoints newPoints true (reset None s)) by done.
  destruct (addPoints_append newPoints (reset None s))
    as (Hd & Hs & He & Hst).
  rewrite Hreset, Hd, He, Hst. unfold xvals. rewrite Hd.
  repeat split; try done.
  - by apply forEach_updateStats_stats.
  - simpl. by rewrite <- app_assoc.
Qed.
End StatisticsClaims.

(** ** Double-precision subtraction *)

Lemma distance_ltb_irrefl (d : Distance) : distance_ltb d d = false.
Proof. destruct d; simpl; [apply Z.ltb_irrefl|done|done]. Qed.




(** Rounding keeps a positive integer positive. *)
Lemma round_to_double_magnitude_positive (m : Z) :
  1 <= m → 1 <= round_to_double_magnitude m.
Proof.
  intros Hm. unfold round_to_double_magnitude.
  destruct (Z.leb_spec (Z.log2 m - 52) 0) as [_|Hshift]; [done|].
  set (shift := Z.log2 m - 52) in *.
  assert (Hulp : 0 < 2 ^ shift) by (apply Z.pow_pos_nonneg; lia).
  assert (Hfit : 2 ^ shift <= m).
  { transitivity (2 ^ Z.log2 m).
    - apply Z.pow_le_mono_r; lia.
    - apply Z.log2_spec. lia. }
  assert (Hq : 1 <= m / 2 ^ shift)
    by (apply Z.div_le_lower_bound; lia).
  destruct (_ || _); nia.
Qed.

Lemma to_double_positive (z : Z) :
  1 <= z → distance_ltb (Finite 0) (to_double z) = true.
Proof.
  intros Hz. unfold to_double.
  pose proof (round_to_double_magnitude_positive (Z.abs z) ltac:(lia)) as Hm.
  destruct (Z.leb_spec (2 ^ 1024) (round_to_double_magnitude (Z.abs z))).
  - destruct (Z.ltb_spec z 0); [lia|done].
  - simpl. apply Z.ltb_lt.
    replace (Z.sgn z) with 1 by lia. lia.
Qed.

(** ** Nearest point *)

Section Nearest.
Context {Point : Type} `{Countable Point}.
Context {Limit : Type} `{!Collaborators Point Limit}.
Implicit Types (s : Series Point Limit) (p q : Point).

(** The predecessor at the insertion index: [None] at index 0. *)
Lemma get_predecessor (array : list Point) (r : nat) :
  JsArray.get array (Z.of_nat r - 1)
  = match r with O => None | S r' => array !! r' end.
Proof.
  destruct r as [|r'].
  - by rewrite get_negative by lia.
  - replace (Z.of_nat (S r') - 1) with (Z.of_nat r') by lia.
    apply get_of_nat.
Qed.


(** C7, as amended: when the x value of [q] is exactly equidistant from
    its predecessor and its successor at the insertion index (both
    present), [nearestPoint(q)] returns the predecessor, the point just
    before the insertion index: the successor is chosen only when it is
    strictly closer. *)
Theorem nearestPoint_tie_returns_predecessor q s (lo hi : Point) :
  JsArray.get (data s) (sortedIndex q s - 1) = Some lo →
  JsArray.get (data s) (sortedIndex q s) = Some hi →
  getXVal q - getXVal lo = getXVal hi - getXVal q →
  nearestPoint q s = Some lo.
Proof.
  intros Hlo Hhi Htie. unfold nearestPoint.
  rewrite Hlo, Hhi. unfold double_sub. rewrite Htie.
  by rewrite distance_ltb_irrefl.
Qed.
End Nearest.

(** ** Purging

    More on arrays first: [indexOf] past a prefix, and [slice] between
    two non-negative indices. *)

Section JsArraySlices.
Context {A : Type} `{EqDecision A}.
Implicit Types (array : list A) (x : A).

Lemma indexOf_from_first array1 array2 x (i : Z) :
  x ∉ array1 →
  JsArray.indexOf_from (array1 ++ x :: array2) x i
  = i + Z.of_nat (length array1).
Proof.
  revert i. induction array1 as [|y array1 IH]; intros i Hx; simpl.
  - rewrite decide_True by done. lia.
  - apply not_elem_of_cons in Hx as [Hne Hx].
    rewrite decide_False by congruence. rewrite IH by done. lia.
Qed.

(** [slice(a, e)] with both indices non-negative. *)
Lemma slice_nonneg array (a e : nat) :
  JsArray.slice array (Z.of_nat a) (Z.of_nat e) = take (e - a) (drop a array).
Proof.
  unfold JsArray.slice, JsArray.clamp_index.
  destruct (Z.ltb_spec (Z.of_nat a) 0); [lia|].
  destruct (Z.ltb_spec (Z.of_nat e) 0); [lia|].
  destruct (Nat.le_gt_cases a (length array)) as [Ha|Ha].
  - replace (Z.to_nat (Z.min (Z.of_nat a) (Z.of_nat (length array))))
      with a by lia.
    destruct (Nat.le_gt_cases e (length array)) as [He|He].
    + f_equal. lia.
    + rewrite !take_ge; [done|rewrite length_drop; lia|rewrite length_drop; lia].
  - rewrite !drop_ge by lia. by rewrite !take_nil.
Qed.
End JsArraySlices.

Section Purge.
Context {Point : Type} `{Countable Point}.
Context {Limit : Type} `{!Collaborators Point Limit}.
Implicit Types (s : Series Point Limit) (p q : Point).

Lemma remove_data_first (pre post : list Point) p s :
  data s = pre ++ p :: post → p ∉ pre →
  data (remove p s) = pre ++ post.
Proof.
  intros Hdata Hp. unfold remove, JsArray.indexOf. simpl.
  rewrite Hdata, indexOf_from_first, Z.add_0_l by done.
  rewrite splice_delete by (rewrite length_app; simpl; lia).
  rewrite take_app_length.
  replace (S (length pre)) with (length (pre ++ [p]))
    by (rewrite length_app; simpl; lia).
  replace (pre ++ p :: post) with ((pre ++ [p]) ++ post)
    by by rewrite <- app_assoc.
  by rewrite drop_app_length.
Qed.

(** Removing the points of a prefix one by one leaves the rest. *)
Lemma forEach_remove_prefix (l post : list Point) s :
  data s = l ++ post → data (JsArray.forEach remove l s) = post.
Proof.
  revert s. induction l as [|p l IH]; intros s Hdata; [done|].
  unfold JsArray.forEach in *. simpl. apply IH.
  apply (remove_data_first [] (l ++ post)); [exact Hdata|apply not_elem_of_nil].
Qed.

(** Removing the points of a suffix one by one leaves the rest, when no
    point is stored twice. *)
Lemma forEach_remove_suffix (pre l : list Point) s :
  data s = pre ++ l → NoDup (pre ++ l) →
  data (JsArray.forEach remove l s) = pre.
Proof.
  revert s. induction l as [|p l IH]; intros s Hdata Hnodup.
  - by rewrite app_nil_r in Hdata.
  - unfold JsArray.forEach in *. simpl. apply IH.
    + apply remove_data_first; [done|].
      apply NoDup_app in Hnodup as (_ & Hdisj & _).
      intros Hin. apply (Hdisj p Hin). by left.
    + apply NoDup_app in Hnodup as (Hpre & Hdisj & Hl).
      apply NoDup_app. split; [done|split].
      * intros x Hx Hxl. apply (Hdisj x Hx). by right.
      * by apply NoDup_cons in Hl as [_ Hl].
Qed.

Lemma StronglySorted_lt_NoDup (l : list Z) : StronglySorted Z.lt l → NoDup l.
Proof.
  induction 1 as [|x l Hs IH Hall]; constructor; [|done].
  intros Hin. rewrite Forall_forall in Hall. specialize (Hall x Hin). lia.
Qed.

(** What stays stored after the purge of a strictly ascending buffer:
    a window of the former points that starts at [startIndex]. *)
Lemma purge_data (range_min range_max : Z) s :
  StronglySorted Z.lt (xvals s) →
  let a := Lodash.sortedIndex getXVal (data s) (boundPoint range_min) in
  let b := Lodash.sortedIndex getXVal (data s) (boundPoint range_max) in
  ∃ n : nat,
    (Nat.min (b + 1) (length (data s)) - a <= n)%nat
    ∧ data (purgeRecordsOutsideRange range_min range_max s)
      = take n (drop a (data s)).
Proof.
  intros Hsorted a b.
  pose proof (sortedIndex_le_length getXVal (data s) (boundPoint range_min))
    as Ha. fold a in Ha.
  pose proof (sortedIndex_le_length getXVal (data s) (boundPoint range_max))
    as Hb. fold b in Hb.
  unfold purgeRecordsOutsideRange, sortedIndex. fold a b.
  destruct (Z.ltb_spec 0 (Z.of_nat a
              + (Z.of_nat (length (data s)) - (Z.of_nat b + 1) + 1)))
    as [Hpos|Hzero].
  - destruct (_ <? 1000).
    + destruct (forEach_updateStats_frame
        (data (JsArray.forEach remove
          (JsArray.slice
            (data (JsArray.forEach remove
               (JsArray.slice (data s) 0 (Z.of_nat a)) s))
            (Z.of_nat b + 1)
            (Z.of_nat (length (data (JsArray.forEach remove
               (JsArray.slice (data s) 0 (Z.of_nat a)) s)))))
          (JsArray.forEach remove (JsArray.slice (data s) 0 (Z.of_nat a)) s)))
        (set_stats None (JsArray.forEach remove
          (JsArray.slice
            (data (JsArray.forEach remove
               (JsArray.slice (data s) 0 (Z.of_nat a)) s))
            (Z.of_nat b + 1)
            (Z.of_nat (length (data (JsArray.forEach remove
               (JsArray.slice (data s) 0 (Z.of_nat a)) s)))))
          (JsArray.forEach remove (JsArray.slice (data s) 0 (Z.of_nat a)) s))))
        as (Hd & _).
      unfold resetStats. rewrite Hd. clear Hd. simpl.
      change 0 with (Z.of_nat 0). rewrite slice_nonneg, Nat.sub_0_r, drop_0.
      assert (Hd1 : data (JsArray.forEach remove (take a (data s)) s)
                    = drop a (data s)).
      { apply forEach_remove_prefix. by rewrite take_drop. }
      rewrite Hd1.
      replace (Z.of_nat b + 1) with (Z.of_nat (b + 1)) by lia.
      rewrite slice_nonneg.
      rewrite (take_ge (drop (b + 1) _)) by (rewrite length_drop; lia).
      exists (b + 1)%nat. split; [lia|].
      apply forEach_remove_suffix.
      * by rewrite Hd1, take_drop.
      * rewrite take_drop.
        apply (NoDup_fmap_1 getXVal).
        rewrite fmap_drop. 
        apply StronglySorted_lt_NoDup.
        unfold xvals in Hsorted.
        rewrite <- (take_drop a (getXVal <$> data s)) in Hsorted.
        by apply StronglySorted_app_1_r in Hsorted.
    + exists (b + 1 - a)%nat. split; [lia|].
      unfold reset.
      destruct (addPoints_append
                  (JsArray.slice (data s) (Z.of_nat a) (Z.of_nat b + 1))
                  (emit EvReset (resetStats (set_data [] s))))
        as (-> & _).
      simpl.
      replace (Z.of_nat b + 1) with (Z.of_nat (b + 1)) by lia.
      by rewrite slice_nonneg.
  - exists (length (data s)). split.
    + lia.
    + rewrite take_ge by (rewrite length_drop; lia).
      replace a with 0%nat by lia. by rewrite drop_0.
Qed.

(** X20 ([purgeRecordsOutsideRange], points in range): the half of the
    purge contract that the code keeps: on a strictly
    ascending buffer, with range bounds that format and parse back to
    themselves, every stored point whose x value is within the range is
    still stored afterwards. *)
Lemma purge_keeps_points_in_range (range_min range_max : Z) s p :
  strictly_ascending (xvals s) = true →
  getXVal (boundPoint range_min) = range_min →
  getXVal (boundPoint range_max) = range_max →
  p ∈ data s → in_range range_min range_max (getXVal p) = true →
  p ∈ data (purgeRecordsOutsideRange range_min range_max s).
Proof.
  intros Hsorted Hmin Hmax Hp Hin.
  apply strictly_ascending_sorted in Hsorted.
  unfold in_range in Hin. apply andb_true_iff in Hin as [Hge Hle].
  destruct (purge_data range_min range_max s Hsorted) as (n & Hn & ->).
  destruct (sortedIndex_spec getXVal (data s) (boundPoint range_min) Hsorted)
    as (_ & Hbelow & _).
  destruct (sortedIndex_spec getXVal (data s) (boundPoint range_max) Hsorted)
    as (_ & _ & Habove).
  rewrite Hmin in Hbelow. rewrite Hmax in Habove.
  set (a := Lodash.sortedIndex getXVal (data s) (boundPoint range_min)) in *.
  set (b := Lodash.sortedIndex getXVal (data s) (boundPoint range_max)) in *.
  apply list_elem_of_lookup_1 in Hp as [j Hj].
  pose proof (lookup_lt_Some _ _ _ Hj) as Hjlen.
  assert (Hja : (a <= j)%nat).
  { destruct (Nat.le_gt_cases a j) as [|Hlt]; [done|].
    pose proof (Hbelow j p Hlt Hj). lia. }
  assert (Hjb : (j <= b)%nat).
  { destruct (Nat.le_gt_cases j b) as [|Hgt]; [done|].
    destruct (lookup_lt_is_Some_2 (data s) b) as [qb Hqb]; [lia|].
    pose proof (Habove b qb ltac:(lia) Hqb).
    pose proof (StronglySorted_lookup_lt _ b j _ _ Hsorted
                  (xvals_lookup _ _ _ Hqb) (xvals_lookup _ _ _ Hj) Hgt).
    lia. }
  apply (list_elem_of_lookup_2 _ (j - a)%nat).
  rewrite lookup_take_lt by lia.
  rewrite lookup_drop. rewrite <- Hj. f_equal. lia.
Qed.
End Purge.

(** ** The code on concrete series *)

(** The examples of the nearest-point search: stored x values 1, 5, 10. *)
Example nearestPoint_examples :
  nearestPoint (boundPoint 4) (Demo.holding [1; 5; 10])
  = Some (Demo.datum 1 5)
  ∧ nearestPoint (boundPoint 6) (Demo.holding [1; 5; 10])
    = Some (Demo.datum 1 5)
  ∧ nearestPoint (boundPoint 6) (Demo.holding []) = None.
Proof. by vm_compute. Qed.


(** C7, counterexample: with 1 and 5 stored, the query 3 is at distance 2
    from its predecessor (1) and from its successor (5); [nearestPoint]
    returns the predecessor, not the successor. *)
Lemma nearestPoint_tie_not_successor :
  let s := Demo.holding [1; 5] in
  let q : Demo.Datum := boundPoint 3 in
  JsArray.get (data s) (sortedIndex q s - 1) = Some (Demo.datum 0 1)
  ∧ JsArray.get (data s) (sortedIndex q s) = Some (Demo.datum 1 5)
  ∧ getXVal q - getXVal (Demo.datum 0 1) = getXVal (Demo.datum 1 5) - getXVal q
  ∧ nearestPoint q s = Some (Demo.datum 0 1)
  ∧ nearestPoint q s ≠ Some (Demo.datum 1 5).
Proof. by vm_compute. Qed.

(** C5, counterexample: add the samples 2 (at x = 1) and 10 (at x = 5),
    then remove the second point.  One point with sample 2 is stored, and
    the statistics still give 10 as the maximum. *)
Lemma stats_stale_after_remove :
  let s :=
    run [OpAdd (Demo.datum 0 1) false; OpAdd (Demo.datum 1 5) false;
         OpRemove (Demo.datum 1 5)]
      (new_series 7 : Series Demo.Datum bool) in
  yvals s = [2]
  ∧ maxValue <$> stats s = Some 10
  ∧ ¬ stats_reflect_data s.
Proof.
  intros s.
  assert (Hy : yvals s = [2]) by by vm_compute.
  assert (Hst : stats s
                = Some (mkStats 2 (Demo.datum 0 1) 10 (Demo.datum 1 5)))
    by by vm_compute.
  split; [done|]. split; [by rewrite Hst|].
  unfold stats_reflect_data. rewrite Hst, Hy. simpl.
  intros [_ [Hin _]].
  apply list_elem_of_singleton in Hin. lia.
Qed.

(** C1, at a failing input, for both strategies.  Individual removal: with
    the x values 1, 5, 10, 20, 30 stored, purging to the range [3, 7]
    leaves 5, 10 and 20; 10 and 20 are outside the range.  Reset: with the
    even x values 0 .. 2002 stored, purging to [2000, 2001] takes the reset
    strategy and leaves 2000 and 2002; 2002 is outside the range. *)
Theorem purge_leaves_points_outside_range :
  (let s := Demo.holding [1; 5; 10; 20; 30] in
   strictly_ascending (xvals s) = true
   ∧ xvals (purgeRecordsOutsideRange 3 7 s) = [5; 10; 20]
   ∧ in_range 3 7 10 = false ∧ in_range 3 7 20 = false)
  ∧ (let s := Demo.holding (Demo.timestamps 0 2 1002) in
     strictly_ascending (xvals s) = true
     ∧ xvals (purgeRecordsOutsideRange 2000 2001 s) = [2000; 2002]
     ∧ count_events is_reset_event (purgeRecordsOutsideRange 2000 2001 s)
       = 1%nat
     ∧ in_range 2000 2001 2002 = false).
Proof. by vm_compute. Qed.

(** C2, at two failing inputs, each with exactly 999 stored points outside
    the range.  First: x values 0, 10, 11, .., 1008 and the range [0, 5];
    the individual strategy runs, with 998 [remove] events, and the point
    at 10 stays.  Second: x values 0 .. 999 and the range [0, 0]; the reset
    strategy runs, with one [reset] event and no [remove] event. *)
Theorem purge_threshold_miscounts :
  (let s := Demo.holding (0 :: Demo.timestamps 10 1 999) in
   let s' := purgeRecordsOutsideRange 0 5 s in
   strictly_ascending (xvals s) = true
   ∧ count_outside 0 5 s = 999%nat
   ∧ count_events is_remove_event s' = 998%nat
   ∧ count_events is_reset_event s' = 0%nat
   ∧ xvals s' = [0; 10])
  ∧ (let s := Demo.holding (Demo.timestamps 0 1 1000) in
     let s' := purgeRecordsOutsideRange 0 0 s in
     strictly_ascending (xvals s) = true
     ∧ count_outside 0 0 s = 999%nat
     ∧ count_events is_remove_event s' = 0%nat
     ∧ count_events is_reset_event s' = 1%nat
     ∧ xvals s' = [0]).
Proof. by vm_compute. Qed.

(** ** The theorems at concrete inputs *)

Lemma add_duplicate_x_is_noop_witness :
  let s := Demo.holding [1; 5; 10] in
  let p := Demo.datum 9 5 in
  strictly_ascending (xvals s) = true
  ∧ ((∃ q, q ∈ data s ∧ getXVal q = getXVal p) → add p false s = s).
Proof.
  intros s p. split; [reflexivity|].
  apply (add_duplicate_x_is_noop p s). reflexivity.
Defined.

Lemma stats_reflect_data_when_current_witness :
  let ops :=
    [OpAdd (Demo.datum 0 1) false; OpAdd (Demo.datum 1 5) false;
     OpRemove (Demo.datum 1 5); OpResetStats; OpAdd (Demo.datum 2 3) false] in
  stats_current ops = true
  ∧ stats_reflect_data (run ops (new_series 7 : Series Demo.Datum bool)).
Proof.
  intros ops. split; [reflexivity|].
  apply (stats_reflect_data_when_current ops 7). reflexivity.
Defined.

Lemma remove_stored_point_frame_witness :
  let s := Demo.holding [1; 5; 10] in
  let p := Demo.datum 1 5 in
  data s !! 1%nat = Some p
  ∧ ∃ i : nat,
      data s !! i = Some p ∧ (p ∉ take i (data s))
      ∧ remove p s
        = mkSeries (self s) (delete i (data s)) (stats s) (limits s)
            (emitted s ++ [EvRemove p (Z.of_nat i) (self s)]).
Proof.
  intros s p. split; [reflexivity|].
  apply (remove_stored_point_frame p s).
  apply (list_elem_of_lookup_2 _ 1%nat). reflexivity.
Defined.

Lemma remove_absent_point_drops_last_witness :
  let s := Demo.holding [1; 5; 10] in
  let p := Demo.datum 9 5 in
  data s ≠ [] ∧ (p ∉ data s)
  ∧ ∃ (kept : list Demo.Datum) (last : Demo.Datum),
      data s = kept ++ [last]
      ∧ remove p s
        = mkSeries (self s) kept (stats s) (limits s)
            (emitted s ++ [EvRemove p (-1) (self s)]).
Proof.
  intros s p.
  assert (Hne : data s ≠ []) by (vm_compute; discriminate).
  assert (Hp : p ∉ data s) by exact (bool_decide_unpack (p ∉ data s) I).
  split; [exact Hne|]. split; [exact Hp|].
  exact (remove_absent_point_drops_last p s Hne Hp).
Defined.

Lemma reset_reseeds_in_order_witness :
  let s := Demo.holding [1; 5; 10] in
  let newPoints := [Demo.datum 10 2; Demo.datum 11 4] in
  strictly_ascending (getXVal <$> newPoints) = true
  ∧ data (reset (Some newPoints) s) = newPoints.
Proof.
  intros s newPoints. split; [reflexivity|].
  apply (reset_reseeds_in_order newPoints s). reflexivity.
Defined.


Lemma nearestPoint_tie_returns_predecessor_witness :
  let s := Demo.holding [1; 5] in
  let q : Demo.Datum := boundPoint 3 in
  JsArray.get (data s) (sortedIndex q s - 1) = Some (Demo.datum 0 1)
  ∧ JsArray.get (data s) (sortedIndex q s) = Some (Demo.datum 1 5)
  ∧ getXVal q - getXVal (Demo.datum 0 1) = getXVal (Demo.datum 1 5) - getXVal q
  ∧ nearestPoint q s = Some (Demo.datum 0 1).
Proof.
  intros s q.
  split; [reflexivity|]. split; [reflexivity|]. split; [reflexivity|].
  apply (nearestPoint_tie_returns_predecessor q s
           (Demo.datum 0 1) (Demo.datum 1 5)); reflexivity.
Defined.

(** * Further properties of the series *)

Section FurtherProperties.
Context {Point : Type} `{Countable Point}.
Context {Limit : Type} `{!Collaborators Point Limit}.
Implicit Types (s : Series Point Limit) (p q : Point).

Lemma filter_all {A : Type} (P : A → Prop) `{∀ x, Decision (P x)}
    (l : list A) :
  Forall P l → filter P l = l.
Proof.
  induction 1 as [|x l Hx Hl IH]; [done|].
  by rewrite filter_cons_True, IH.
Qed.

(** X1 ([sortedIndex]): on a buffer strictly ascending by x value, the
    insertion index of a point is the number of stored points whose x value
    is strictly below its own (the leftmost insertion point), and it lies
    between 0 and the number of stored points. *)
Theorem sortedIndex_counts_points_below p s :
  strictly_ascending (xvals s) = true →
  sortedIndex p s
  = Z.of_nat (length (filter (fun q => getXVal q < getXVal p) (data s)))
  ∧ 0 <= sortedIndex p s <= Z.of_nat (length (data s)).
Proof.
  intros Hasc. apply strictly_ascending_sorted in Hasc.
  destruct (sortedIndex_spec getXVal (data s) p Hasc)
    as (Hlen & Hbelow & Habove).
  unfold sortedIndex.
  set (r := Lodash.sortedIndex getXVal (data s) p) in *.
  split; [|lia].
  rewrite <- (take_drop r (data s)) at 1.
  rewrite filter_app, filter_all, filter_none.
  - rewrite app_nil_r, length_take. f_equal. lia.
  - apply Forall_lookup. intros j q Hj. rewrite lookup_drop in Hj.
    pose proof (Habove (r + j)%nat q ltac:(lia) Hj). lia.
  - apply Forall_lookup. intros j q Hj.
    apply lookup_take_Some in Hj as [Hj Hjr]. by eapply Hbelow.
Qed.

Lemma series_eq s s' :
  self s = self s' → data s = data s' → stats s = stats s' →
  limits s = limits s' → emitted s = emitted s' → s = s'.
Proof. destruct s, s'. simpl. by intros -> -> -> -> ->. Qed.

(** X2 ([resetStats]): from any state, stale statistics included,
    [resetStats] leaves statistics that describe the stored points (absent
    exactly when nothing is stored, otherwise the least and greatest y
    value); it changes neither the points, nor the limit annotations, nor
    the trace, and running it twice is the same as running it once. *)
Theorem resetStats_restores_statistics s :
  stats_reflect_data (resetStats s)
  ∧ data (resetStats s) = data s
  ∧ limits (resetStats s) = limits s
  ∧ emitted (resetStats s) = emitted s
  ∧ resetStats (resetStats s) = resetStats s.
Proof.
  destruct (forEach_updateStats_frame (data s) (set_stats None s))
    as (Hd & Hs & Hl & He).
  split; [apply resetStats_reflect|].
  split; [done|]. split; [done|]. split; [done|].
  destruct (forEach_updateStats_frame (data (resetStats s))
              (set_stats None (resetStats s))) as (Hd' & Hs' & Hl' & He').
  apply series_eq; [done..| |done|done].
  - change (stats (JsArray.forEach updateStats (data (resetStats s))
                     (set_stats None (resetStats s)))
            = stats (JsArray.forEach updateStats (data s) (set_stats None s))).
    change (data (resetStats s) = data s) in Hd. rewrite Hd.
    by apply forEach_updateStats_stats.
Qed.

Lemma first_with_least_y_snoc_keep (l : list Point) p0 p :
  first_with_least_y p0 l → getYVal p0 <= getYVal p →
  first_with_least_y p0 (l ++ [p]).
Proof.
  intros (i & Hi & Hall & Hbefore) Hle.
  pose proof (lookup_lt_Some _ _ _ Hi) as Hlt.
  exists i. split; [by rewrite lookup_app_l|]. split.
  - intros q Hq. apply elem_of_app in Hq as [Hq|Hq]; [by apply Hall|].
    apply list_elem_of_singleton in Hq as ->. done.
  - intros j q Hj Hjq. rewrite lookup_app_l in Hjq by lia. by eapply Hbefore.
Qed.

Lemma first_with_least_y_snoc_new (l : list Point) p0 p :
  first_with_least_y p0 l → getYVal p < getYVal p0 →
  first_with_least_y p (l ++ [p]).
Proof.
  intros (i & Hi & Hall & Hbefore) Hlt.
  exists (length l). split; [by rewrite list_lookup_middle|]. split.
  - intros q Hq. apply elem_of_app in Hq as [Hq|Hq].
    + specialize (Hall q Hq). lia.
    + apply list_elem_of_singleton in Hq as ->. lia.
  - intros j q Hj Hjq. rewrite lookup_app_l in Hjq by lia.
    apply list_elem_of_lookup_2 in Hjq. specialize (Hall q Hjq). lia.
Qed.

Lemma first_with_greatest_y_snoc_keep (l : list Point) p0 p :
  first_with_greatest_y p0 l → getYVal p <= getYVal p0 →
  first_with_greatest_y p0 (l ++ [p]).
Proof.
  intros (i & Hi & Hall & Hbefore) Hle.
  pose proof (lookup_lt_Some _ _ _ Hi) as Hlt.
  exists i. split; [by rewrite lookup_app_l|]. split.
  - intros q Hq. apply elem_of_app in Hq as [Hq|Hq]; [by apply Hall|].
    apply list_elem_of_singleton in Hq as ->. done.
  - intros j q Hj Hjq. rewrite lookup_app_l in Hjq by lia. by eapply Hbefore.
Qed.

Lemma first_with_greatest_y_snoc_new (l : list Point) p0 p :
  first_with_greatest_y p0 l → getYVal p0 < getYVal p →
  first_with_greatest_y p (l ++ [p]).
Proof.
  intros (i & Hi & Hall & Hbefore) Hlt.
  exists (length l). split; [by rewrite list_lookup_middle|]. split.
  - intros q Hq. apply elem_of_app in Hq as [Hq|Hq].
    + specialize (Hall q Hq). lia.
    + apply list_elem_of_singleton in Hq as ->. lia.
  - intros j q Hj Hjq. rewrite lookup_app_l in Hjq by lia.
    apply list_elem_of_lookup_2 in Hjq. specialize (Hall q Hjq). lia.
Qed.

Lemma updateStats_names_first_extremes p s (l : list Point) :
  stats_name_first_extremes (stats s) l →
  stats_name_first_extremes (stats (updateStats p s)) (l ++ [p]).
Proof.
  intros Hinv. unfold updateStats.
  destruct (stats s) as [st|] eqn:Hst; simpl in Hinv.
  - destruct Hinv as (Hmin & Hminv & Hmax & Hmaxv).
    destruct (Z.ltb_spec (maxValue st) (getYVal p)) as [Hgt|Hle];
      cbv iota; simpl minValue;
      destruct (Z.gtb_spec (minValue st) (getYVal p)) as [Hlt|Hge];
      simpl; rewrite ?Hst; simpl;
      repeat split;
      first [ done
            | by apply (first_with_least_y_snoc_new l (minPoint st)); [|lia]
            | by apply first_with_least_y_snoc_keep; [|lia]
            | by apply (first_with_greatest_y_snoc_new l (maxPoint st)); [|lia]
            | by apply first_with_greatest_y_snoc_keep; [|lia] ].
  - simpl. subst l. simpl.
    assert (Hone : ∀ q, q ∈ [p] → q = p)
      by (intros q Hq; by apply list_elem_of_singleton in Hq).
    repeat split; try done;
      (exists 0%nat; split; [done|split;
         [intros q Hq; apply Hone in Hq as ->; lia|intros j q Hj; lia]]).
Qed.

Lemma forEach_updateStats_names_first_extremes (l pre : list Point) s :
  stats_name_first_extremes (stats s) pre →
  stats_name_first_extremes (stats (JsArray.forEach updateStats l s))
    (pre ++ l).
Proof.
  revert pre s. induction l as [|p l IH]; intros pre s Hinv.
  - by rewrite app_nil_r.
  - unfold JsArray.forEach in *. simpl.
    replace (pre ++ p :: l) with ((pre ++ [p]) ++ l)
      by by rewrite <- app_assoc.
    apply IH. by apply updateStats_names_first_extremes.
Qed.

(** X3 ([updateStats] under [resetStats]): the comparisons are strict, so
    after [resetStats] the recorded [minPoint] is the first stored point, in
    storage order, with the least y value, and [maxPoint] the first with
    the greatest; their y values are [minValue] and [maxValue]. *)
Theorem resetStats_names_first_extreme_points s (st : Stats Point) :
  stats (resetStats s) = Some st →
  first_with_least_y (minPoint st) (data s)
  ∧ getYVal (minPoint st) = minValue st
  ∧ first_with_greatest_y (maxPoint st) (data s)
  ∧ getYVal (maxPoint st) = maxValue st.
Proof.
  intros Hst.
  pose proof (forEach_updateStats_names_first_extremes (data s) []
                (set_stats None s) eq_refl) as Hinv.
  change (stats_name_first_extremes (stats (resetStats s)) (data s)) in Hinv.
  by rewrite Hst in Hinv.
Qed.

(** *** add *)

Lemma add_appendOnly_inserted p s :
  add p true s = inserted_at (length (data s)) p s.
Proof.
  destruct (add_outcome p true s) as [Hsame|(r & _ & Hr & Hadd)].
  - exfalso. apply (f_equal (fun s => length (emitted s))) in Hsame.
    unfold add in Hsame. simpl in Hsame.
    destruct (updateStats_frame p s) as (_ & _ & _ & Hem).
    rewrite Hem, length_app in Hsame. simpl in Hsame. lia.
  - by rewrite <- (Hr eq_refl).
Qed.

Lemma inserted_at_fields (r : nat) p s :
  self (inserted_at r p s) = self s
  ∧ data (inserted_at r p s) = take r (data s) ++ p :: drop r (data s)
  ∧ stats (inserted_at r p s) = stats (updateStats p s)
  ∧ limits (inserted_at r p s) = <[p := evaluate p]> (limits s)
  ∧ emitted (inserted_at r p s)
    = emitted s ++ [EvAdd p (Z.of_nat r) (self s)].
Proof.
  destruct (updateStats_frame p s) as (Hd & Hs & Hl & He).
  unfold inserted_at. simpl. by rewrite Hs, Hl, He.
Qed.

(** X4 ([add], [updateStats]): when statistics are present, [add] in
    either mode keeps them present and can only widen them: [minValue]
    does not grow and [maxValue] does not shrink; when the point is
    inserted, its y value lies between the two bounds afterwards. *)
Theorem add_widens_statistics p (appendOnly : bool) s (st : Stats Point) :
  stats s = Some st →
  ∃ st' : Stats Point,
    stats (add p appendOnly s) = Some st'
    ∧ minValue st' <= minValue st ∧ maxValue st <= maxValue st'
    ∧ (length (data (add p appendOnly s)) = S (length (data s)) →
       minValue st' <= getYVal p <= maxValue st').
Proof.
  intros Hst.
  destruct (add_outcome p appendOnly s) as [->|(r & Hr & _ & ->)].
  - exists st. repeat split; [done|lia|lia|lia|lia].
  - destruct (inserted_at_fields r p s) as (_ & _ & -> & _).
    unfold updateStats. rewrite Hst.
    destruct (Z.ltb_spec (maxValue st) (getYVal p)) as [Hgt|Hle];
      cbv iota; simpl minValue;
      destruct (Z.gtb_spec (minValue st) (getYVal p)) as [Hlt|Hge];
      simpl; rewrite ?Hst; eexists; (split; [reflexivity|]); simpl; lia.
Qed.

(** X5 ([add], both paths): on a strictly ascending buffer, for a point
    whose x value is above every stored one (the contract of the
    append-only path), [add(p, true)] and [add(p, false)] produce the same
    series, and the buffer stays strictly ascending. *)
Theorem add_appendOnly_agrees_with_checked_add p s :
  strictly_ascending (xvals s) = true →
  (∀ q, q ∈ data s → getXVal q < getXVal p) →
  add p true s = add p false s
  ∧ strictly_ascending (xvals (add p true s)) = true.
Proof.
  intros Hasc Hall.
  pose proof Hasc as Hsorted. apply strictly_ascending_sorted in Hsorted.
  assert (Heq : add p true s = add p false s).
  { rewrite add_appendOnly_inserted.
    destruct (add_checked_outcome p s Hsorted)
      as [[(q & Hq & Hqx) _]|(_ & -> & Hlen & _ & Habove)].
    - specialize (Hall q Hq). lia.
    - f_equal.
      destruct (Nat.eq_dec (Lodash.sortedIndex getXVal (data s) p)
                  (length (data s))) as [Hr|Hr]; [done|].
      destruct (lookup_lt_is_Some_2 (data s)
                  (Lodash.sortedIndex getXVal (data s) p)) as [q Hq]; [lia|].
      rewrite Forall_lookup in Habove.
      specialize (Habove 0%nat q). rewrite lookup_drop, Nat.add_0_r in Habove.
      specialize (Habove Hq).
      specialize (Hall q (list_elem_of_lookup_2 _ _ _ Hq)). lia. }
  split; [done|]. rewrite Heq.
  apply strictly_ascending_sorted. by apply add_checked_sorted.
Qed.

(** X6 ([add], append-only path): [add(p, true)] performs neither the
    order search nor the duplicate check; it stores [p] at the end even
    when a stored point has an x value at or above that of [p], and the
    buffer is then not strictly ascending. *)
Theorem add_appendOnly_skips_order_checks p q s :
  q ∈ data s → getXVal p <= getXVal q →
  data (add p true s) = data s ++ [p]
  ∧ strictly_ascending (xvals (add p true s)) = false.
Proof.
  intros Hq Hle.
  assert (Hdata : data (add p true s) = data s ++ [p]).
  { rewrite add_appendOnly_inserted.
    destruct (inserted_at_fields (length (data s)) p s) as (_ & -> & _).
    by rewrite take_ge, drop_ge by done. }
  split; [done|].
  apply not_true_iff_false. intros Hasc.
  apply strictly_ascending_sorted in Hasc.
  apply list_elem_of_lookup_1 in Hq as [j Hj].
  pose proof (lookup_lt_Some _ _ _ Hj) as Hjlen.
  assert (getXVal q < getXVal p); [|lia].
  apply (StronglySorted_lookup_lt _ j (length (data s)) _ _ Hasc); [| |done].
  - unfold xvals. rewrite Hdata, list_lookup_fmap, lookup_app_l by done.
    by rewrite Hj.
  - unfold xvals. rewrite Hdata, list_lookup_fmap, list_lookup_middle by done.
    done.
Qed.

(** X7 ([add], checked path): on a strictly ascending buffer with no
    stored point at the x value of [p], [add(p, false)] emits one [add]
    event whose index is the insertion index; [p] is stored at that index,
    deleting that position gives back the former points, [p] is annotated
    with the limit the evaluator gives it, and no other annotation
    changes. *)
Theorem add_stores_point_at_emitted_index p s :
  strictly_ascending (xvals s) = true →
  (∀ q, q ∈ data s → getXVal q ≠ getXVal p) →
  ∃ k : nat,
    sortedIndex p s = Z.of_nat k
    ∧ emitted (add p false s) = emitted s ++ [EvAdd p (Z.of_nat k) (self s)]
    ∧ data (add p false s) !! k = Some p
    ∧ delete k (data (add p false s)) = data s
    ∧ limits (add p false s) !! p = Some (evaluate p)
    ∧ (∀ q, q ≠ p → limits (add p false s) !! q = limits s !! q).
Proof.
  intros Hasc Hfresh. apply strictly_ascending_sorted in Hasc.
  destruct (add_checked_outcome p s Hasc)
    as [[(q & Hq & Hqx) _]|(_ & -> & Hlen & _ & _)];
    [by specialize (Hfresh q Hq)|].
  set (r := Lodash.sortedIndex getXVal (data s) p) in *.
  destruct (inserted_at_fields r p s) as (_ & -> & _ & -> & ->).
  assert (Htake : length (take r (data s)) = r)
    by (rewrite length_take; lia).
  exists r. split; [done|]. split; [done|]. split; [|split; [|split]].
  - by rewrite list_lookup_middle.
  - rewrite <- Htake at 1. by rewrite delete_middle, take_drop.
  - by rewrite lookup_insert_eq.
  - intros q Hq. by rewrite lookup_insert_ne.
Qed.

(** *** remove *)

Lemma splice_without_items_sublist (array : list Point) (start dc : Z) :
  JsArray.splice array start dc [] `sublist_of` array.
Proof.
  unfold JsArray.splice. simpl.
  set (k := JsArray.clamp_index (Z.of_nat (length array)) start).
  set (d := Z.min (Z.max dc 0) (Z.of_nat (length array) - k)).
  rewrite <- (take_drop (Z.to_nat k) array) at 3.
  apply sublist_app; [done|].
  assert (Hk : 0 <= k <= Z.of_nat (length array)).
  { unfold k, JsArray.clamp_index. destruct (Z.ltb_spec start 0); lia. }
  assert (Hd : 0 <= d) by (unfold d; lia).
  replace (Z.to_nat (k + d)) with (Z.to_nat k + Z.to_nat d)%nat by lia.
  rewrite <- drop_drop. apply sublist_drop.
Qed.

Lemma StronglySorted_sublist (l1 l2 : list Z) :
  l1 `sublist_of` l2 → StronglySorted Z.lt l2 → StronglySorted Z.lt l1.
Proof.
  induction 1 as [|x l1 l2 Hsub IH|x l1 l2 Hsub IH]; intros Hs; [done|..].
  - apply StronglySorted_cons in Hs as [Hall Hs].
    apply StronglySorted_cons. split; [|by apply IH].
    rewrite Forall_forall in *. intros y Hy. apply Hall.
    by eapply elem_of_sublist.
  - apply StronglySorted_cons in Hs as [_ Hs]. by apply IH.
Qed.

Lemma remove_fields p s :
  self (remove p s) = self s
  ∧ data (remove p s)
    = JsArray.splice (data s) (JsArray.indexOf (data s) p) 1 []
  ∧ stats (remove p s) = stats s
  ∧ limits (remove p s) = limits s
  ∧ emitted (remove p s)
    = emitted s ++ [EvRemove p (JsArray.indexOf (data s) p) (self s)].
Proof. done. Qed.

Lemma remove_sublist p s : data (remove p s) `sublist_of` data s.
Proof. apply splice_without_items_sublist. Qed.

Lemma remove_sorted p s :
  StronglySorted Z.lt (xvals s) → StronglySorted Z.lt (xvals (remove p s)).
Proof.
  apply StronglySorted_sublist. unfold xvals.
  apply fmap_sublist, remove_sublist.
Qed.

(** X8 ([remove]): whether or not [p] is stored, [remove(p)] keeps a
    strictly ascending buffer strictly ascending; what remains is a
    sublist of the former points, one shorter (or still empty). *)
Theorem remove_keeps_strictly_ascending p s :
  strictly_ascending (xvals s) = true →
  strictly_ascending (xvals (remove p s)) = true
  ∧ data (remove p s) `sublist_of` data s
  ∧ length (data (remove p s)) = (length (data s) - 1)%nat.
Proof.
  intros Hasc. split; [|split].
  - apply strictly_ascending_sorted, remove_sorted.
    by apply strictly_ascending_sorted.
  - apply remove_sublist.
  - destruct (remove_fields p s) as (_ & -> & _).
    destruct (decide (p ∈ data s)) as [Hin|Hout].
    + destruct (indexOf_from_elem (data s) p 0 Hin) as (k & Hk & Hlook & _).
      pose proof (lookup_lt_Some _ _ _ Hlook) as Hlt.
      unfold JsArray.indexOf. rewrite Hk, Z.add_0_l, splice_delete by done.
      rewrite length_app, length_take, length_drop. lia.
    + unfold JsArray.indexOf.
      rewrite indexOf_from_not_elem, splice_minus_one by done.
      rewrite length_take. lia.
Qed.

(** X9 ([remove], empty buffer): on a series with no stored point,
    [remove(p)] changes neither points, statistics nor annotations, and
    still emits a [remove] event, with index -1. *)
Theorem remove_on_empty_buffer p s :
  data s = [] →
  remove p s
  = mkSeries (self s) [] (stats s) (limits s)
      (emitted s ++ [EvRemove p (-1) (self s)]).
Proof.
  intros Hempty. unfold remove, JsArray.indexOf. by rewrite Hempty.
Qed.

(** X10 ([add] then [remove]): on a strictly ascending buffer with no
    stored point at the x value of [p], removing [p] right after
    [add(p, false)] gives back the former points, while the statistics
    stay those computed with [p] taken into account. *)
Theorem remove_undoes_add_on_points_only p s :
  strictly_ascending (xvals s) = true →
  (∀ q, q ∈ data s → getXVal q ≠ getXVal p) →
  data (remove p (add p false s)) = data s
  ∧ stats (remove p (add p false s)) = stats (updateStats p s).
Proof.
  intros Hasc Hfresh. apply strictly_ascending_sorted in Hasc.
  destruct (add_checked_outcome p s Hasc)
    as [[(q & Hq & Hqx) _]|(_ & -> & Hlen & _ & _)];
    [by specialize (Hfresh q Hq)|].
  set (r := Lodash.sortedIndex getXVal (data s) p) in *.
  destruct (inserted_at_fields r p s) as (_ & Hd & Hst & _).
  split; [|by destruct (remove_fields p (inserted_at r p s)) as (_ & _ & -> & _)].
  rewrite (remove_data_first (take r (data s)) (drop r (data s)) p); [|done|].
  - apply take_drop.
  - intros Hin. apply (Hfresh p); [|done].
    by eapply elem_of_sublist; [|apply sublist_take].
Qed.

(** *** nearestPoint *)

(** X11 ([nearestPoint], exact hit): on a strictly ascending buffer, a
    query whose x value equals that of a stored point returns that stored
    point. *)
Theorem nearestPoint_exact_hit q p s :
  strictly_ascending (xvals s) = true →
  p ∈ data s → getXVal p = getXVal q →
  nearestPoint q s = Some p.
Proof.
  intros Hasc Hp Hx. apply strictly_ascending_sorted in Hasc.
  destruct (sortedIndex_spec getXVal (data s) q Hasc)
    as (Hlen & Hbelow & Habove).
  unfold nearestPoint, sortedIndex.
  set (r := Lodash.sortedIndex getXVal (data s) q) in *.
  apply list_elem_of_lookup_1 in Hp as [j Hj].
  pose proof (lookup_lt_Some _ _ _ Hj) as Hjlen.
  assert (Hrj : r = j).
  { destruct (Nat.lt_trichotomy j r) as [Hlt|[Heq|Hgt]]; [|done|].
    - pose proof (Hbelow j p Hlt Hj). lia.
    - destruct (lookup_lt_is_Some_2 (data s) r) as [pr Hpr]; [lia|].
      pose proof (Habove r pr ltac:(lia) Hpr).
      pose proof (StronglySorted_lookup_lt _ r j _ _ Hasc
                    (xvals_lookup _ _ _ Hpr) (xvals_lookup _ _ _ Hj) Hgt).
      lia. }
  rewrite get_predecessor, get_of_nat, Hrj, Hj.
  assert (Hzero : double_sub (getXVal p) (getXVal q) = Finite 0)
    by (rewrite Hx; unfold double_sub; by rewrite Z.sub_diag).
  rewrite Hzero.
  destruct j as [|j']; [done|].
  destruct (data s !! j') as [lo|] eqn:Hlo; [|done].
  pose proof (Hbelow j' lo ltac:(lia) Hlo) as Hlt.
  unfold double_sub. by rewrite to_double_positive by lia.
Qed.

(** *** The shape of a purge *)

Lemma purge_cases (range_min range_max : Z) s :
  purgeRecordsOutsideRange range_min range_max s = s
  ∨ (∃ l1 l2 : list Point,
       purgeRecordsOutsideRange range_min range_max s
       = resetStats (JsArray.forEach remove l2 (JsArray.forEach remove l1 s)))
  ∨ (∃ a e : Z,
       purgeRecordsOutsideRange range_min range_max s
       = reset (Some (JsArray.slice (data s) a e)) s).
Proof.
  unfold purgeRecordsOutsideRange.
  destruct (0 <? _); [|by left].
  destruct (_ <? 1000); right; [left|right]; eauto.
Qed.

Lemma forEach_remove_preserves (I : Series Point Limit → Prop)
    (l : list Point) s :
  (∀ p s, I s → I (remove p s)) → I s → I (JsArray.forEach remove l s).
Proof.
  intros Hremove. revert s.
  induction l as [|p l IH]; intros s Hs; [done|].
  unfold JsArray.forEach in *. simpl. apply IH. by apply Hremove.
Qed.

Lemma addPoints_preserves (I : Series Point Limit → Prop)
    (points : list Point) (appendOnly : bool) s :
  (∀ p s, I s → I (add p appendOnly s)) → I s →
  I (addPoints points appendOnly s).
Proof.
  intros Hadd. revert s.
  induction points as [|p points IH]; intros s Hs; [done|].
  unfold addPoints, JsArray.forEach in *. simpl. apply IH. by apply Hadd.
Qed.

(** An invariant that [add], [remove] and [resetStats] keep and that holds
    after [reset()] holds after every sequence of calls. *)
Lemma run_calls_preserves (I : Series Point Limit → Prop) :
  (∀ p b s, I s → I (add p b s)) →
  (∀ p s, I s → I (remove p s)) →
  (∀ s, I s → I (resetStats s)) →
  (∀ s, I (reset None s)) →
  ∀ calls s, I s → I (run_calls calls s).
Proof.
  intros Hadd Hremove HresetStats Hreset.
  assert (Hseed : ∀ nd s, I (reset (Some nd) s)).
  { intros nd s.
    change (I (addPoints nd true (reset None s))).
    apply addPoints_preserves; [intros; by apply Hadd|apply Hreset]. }
  induction calls as [|c calls IH]; intros s Hs; [done|].
  simpl. apply IH.
  destruct c as [[p b|p|[nd|]|]|range_min range_max];
    unfold apply_call, apply_op;
    [by apply Hadd|by apply Hremove|apply Hseed|apply Hreset
    |by apply HresetStats|].
  destruct (purge_cases range_min range_max s)
    as [->|[(l1 & l2 & ->)|(a & e & ->)]]; [done| |apply Hseed].
  apply HresetStats. do 2 (apply forEach_remove_preserves; [done|]). done.
Qed.

(** *** Limit annotations *)

Lemma add_annotated p (b : bool) s : annotated s → annotated (add p b s).
Proof.
  intros Hs.
  destruct (add_outcome p b s) as [->|(r & _ & _ & ->)]; [done|].
  destruct (inserted_at_fields r p s) as (_ & Hd & _ & Hl & _).
  intros q Hq. rewrite Hl. rewrite Hd in Hq.
  destruct (decide (p = q)) as [->|Hne]; [by rewrite lookup_insert_eq|].
  rewrite lookup_insert_ne by done. apply Hs.
  apply elem_of_app in Hq as [Hq|Hq].
  - by eapply elem_of_sublist; [|apply sublist_take].
  - apply elem_of_cons in Hq as [->|Hq]; [done|].
    by eapply elem_of_sublist; [|apply sublist_drop].
Qed.

Lemma remove_annotated p s : annotated s → annotated (remove p s).
Proof.
  intros Hs q Hq. apply Hs.
  by eapply elem_of_sublist; [|apply remove_sublist].
Qed.

Lemma resetStats_annotated s : annotated s → annotated (resetStats s).
Proof.
  intros Hs q Hq.
  destruct (forEach_updateStats_frame (data s) (set_stats None s))
    as (Hd & _ & Hl & _).
  unfold resetStats in *. rewrite Hl. rewrite Hd in Hq. by apply Hs.
Qed.

(** X12 (limit annotation): after every sequence of [add], [remove],
    [reset], [resetStats] and [purgeRecordsOutsideRange] calls on a series
    created empty, every stored point carries the limit that the evaluator
    gives it. *)
Theorem stored_points_are_annotated (calls : list Call) (id : nat) :
  annotated (run_calls calls (new_series id : Series Point Limit)).
Proof.
  apply (run_calls_preserves annotated).
  - apply add_annotated.
  - apply remove_annotated.
  - apply resetStats_annotated.
  - intros s q Hq. by apply elem_of_nil in Hq.
  - intros q Hq. by apply elem_of_nil in Hq.
Qed.

(** *** Events *)

Lemma replay_snoc (events : list (Event Point)) (e : Event Point) :
  replay (events ++ [e]) = mirror_event (replay events) e.
Proof. unfold replay. by rewrite fold_left_app. Qed.

Lemma add_mirrored p (b : bool) s :
  replay (emitted s) = data s →
  replay (emitted (add p b s)) = data (add p b s).
Proof.
  intros Hs.
  destruct (add_outcome p b s) as [->|(r & Hr & _ & ->)]; [done|].
  destruct (inserted_at_fields r p s) as (_ & -> & _ & _ & ->).
  rewrite replay_snoc, Hs. simpl. by apply splice_insert.
Qed.

Lemma remove_mirrored p s :
  replay (emitted s) = data s →
  replay (emitted (remove p s)) = data (remove p s).
Proof.
  intros Hs. destruct (remove_fields p s) as (_ & -> & _ & _ & ->).
  by rewrite replay_snoc, Hs.
Qed.

Lemma resetStats_mirrored s :
  replay (emitted s) = data s →
  replay (emitted (resetStats s)) = data (resetStats s).
Proof.
  intros Hs.
  destruct (forEach_updateStats_frame (data s) (set_stats None s))
    as (Hd & _ & _ & He).
  unfold resetStats. by rewrite Hd, He.
Qed.

(** X13 (events): after every sequence of [add], [remove], [reset],
    [resetStats] and [purgeRecordsOutsideRange] calls on a series created
    empty, a subscriber that starts from an empty copy and applies each
    emitted event in order (insert at the index of an [add], delete at the
    index of a [remove], clear on [reset]) holds exactly the stored
    points. *)
Theorem events_replay_to_stored_points (calls : list Call) (id : nat) :
  replay (emitted (run_calls calls (new_series id : Series Point Limit)))
  = data (run_calls calls (new_series id : Series Point Limit)).
Proof.
  apply (run_calls_preserves (fun s => replay (emitted s) = data s)).
  - apply add_mirrored.
  - apply remove_mirrored.
  - apply resetStats_mirrored.
  - intros s. simpl. by rewrite replay_snoc.
  - done.
Qed.

(** *** The purge *)

Lemma purge_sorted (range_min range_max : Z) s :
  StronglySorted Z.lt (xvals s) →
  StronglySorted Z.lt (xvals (purgeRecordsOutsideRange range_min range_max s)).
Proof.
  intros Hsorted.
  destruct (purge_data range_min range_max s Hsorted) as (n & _ & Hd).
  unfold xvals. rewrite Hd.
  eapply StronglySorted_sublist; [|exact Hsorted].
  apply fmap_sublist. etrans; [apply sublist_take|apply sublist_drop].
Qed.

(** X14 ([purgeRecordsOutsideRange], shape): on a strictly ascending
    buffer, what the purge leaves is a contiguous run of the former points
    that starts at the insertion index of the lower bound; in particular
    the buffer stays strictly ascending. *)
Theorem purge_keeps_a_window (range_min range_max : Z) s :
  strictly_ascending (xvals s) = true →
  ∃ n : nat,
    data (purgeRecordsOutsideRange range_min range_max s)
    = take n (drop (Z.to_nat (sortedIndex (boundPoint range_min) s)) (data s))
    ∧ strictly_ascending
        (xvals (purgeRecordsOutsideRange range_min range_max s)) = true.
Proof.
  intros Hasc. apply strictly_ascending_sorted in Hasc.
  destruct (purge_data range_min range_max s Hasc) as (n & _ & Hd).
  exists n. split.
  - unfold sortedIndex. by rewrite Nat2Z.id.
  - by apply strictly_ascending_sorted, purge_sorted.
Qed.

(** X15 ([purgeRecordsOutsideRange], lower bound): on a strictly
    ascending buffer, with a lower bound that formats and parses back to
    itself, no point left by the purge has an x value below the lower
    bound. *)
Theorem purge_removes_points_below_min (range_min range_max : Z) s q :
  strictly_ascending (xvals s) = true →
  getXVal (boundPoint range_min) = range_min →
  q ∈ data (purgeRecordsOutsideRange range_min range_max s) →
  range_min <= getXVal q.
Proof.
  intros Hasc Hmin Hq. apply strictly_ascending_sorted in Hasc.
  destruct (purge_data range_min range_max s Hasc) as (n & _ & Hd).
  destruct (sortedIndex_spec getXVal (data s) (boundPoint range_min) Hasc)
    as (_ & _ & Habove).
  rewrite Hmin in Habove. rewrite Hd in Hq.
  apply list_elem_of_lookup_1 in Hq as [j Hj].
  apply lookup_take_Some in Hj as [Hj _]. rewrite lookup_drop in Hj.
  eapply Habove; [|exact Hj]. lia.
Qed.

(** X16 ([purgeRecordsOutsideRange], statistics): the purge keeps
    statistics that describe the stored points, and whenever it changes
    the series the statistics afterwards describe the points that remain,
    even if they were stale before. *)
Theorem purge_leaves_statistics_current (range_min range_max : Z) s :
  (stats_reflect_data s →
   stats_reflect_data (purgeRecordsOutsideRange range_min range_max s))
  ∧ (purgeRecordsOutsideRange range_min range_max s ≠ s →
     stats_reflect_data (purgeRecordsOutsideRange range_min range_max s)).
Proof.
  destruct (purge_cases range_min range_max s)
    as [->|[(l1 & l2 & ->)|(a & e & ->)]].
  - done.
  - split; intros _; apply resetStats_reflect.
  - split; intros _; apply reset_reflect.
Qed.

(** X17 ([purgeRecordsOutsideRange], nothing to purge): on a strictly
    ascending buffer whose points all lie within the range (bounds that
    format and parse back to themselves), the purge keeps every point,
    touches no annotation and emits no event; when moreover every x value
    is strictly below the upper bound, the series is returned as it
    is. *)
Theorem purge_of_buffer_inside_range (range_min range_max : Z) s :
  strictly_ascending (xvals s) = true →
  getXVal (boundPoint range_min) = range_min →
  getXVal (boundPoint range_max) = range_max →
  (∀ q, q ∈ data s → in_range range_min range_max (getXVal q) = true) →
  data (purgeRecordsOutsideRange range_min range_max s) = data s
  ∧ limits (purgeRecordsOutsideRange range_min range_max s) = limits s
  ∧ emitted (purgeRecordsOutsideRange range_min range_max s) = emitted s
  ∧ ((∀ q, q ∈ data s → getXVal q < range_max) →
     purgeRecordsOutsideRange range_min range_max s = s).
Proof.
  intros Hasc Hmin Hmax Hin. apply strictly_ascending_sorted in Hasc.
  assert (Hrange : ∀ j q, data s !! j = Some q →
            range_min <= getXVal q <= range_max).
  { intros j q Hj. apply list_elem_of_lookup_2 in Hj.
    specialize (Hin q Hj). unfold in_range in Hin.
    apply andb_true_iff in Hin. lia. }
  destruct (sortedIndex_spec getXVal (data s) (boundPoint range_min) Hasc)
    as (Ha & Hbelow & _).
  destruct (sortedIndex_spec getXVal (data s) (boundPoint range_max) Hasc)
    as (Hb & Hbelow_max & Habove).
  rewrite Hmin in Hbelow. rewrite Hmax in Habove, Hbelow_max.
  unfold purgeRecordsOutsideRange, sortedIndex.
  set (a := Lodash.sortedIndex getXVal (data s) (boundPoint range_min)) in *.
  set (b := Lodash.sortedIndex getXVal (data s) (boundPoint range_max)) in *.
  assert (Ha0 : a = 0%nat).
  { destruct a as [|a']; [done|].
    destruct (lookup_lt_is_Some_2 (data s) 0) as [q0 Hq0]; [lia|].
    pose proof (Hbelow 0%nat q0 ltac:(lia) Hq0).
    pose proof (Hrange _ _ Hq0). lia. }
  assert (Hb1 : (length (data s) <= b + 1)%nat).
  { destruct (Nat.le_gt_cases (length (data s)) (b + 1)) as [|Hgt]; [done|].
    destruct (lookup_lt_is_Some_2 (data s) b) as [qb Hqb]; [lia|].
    destruct (lookup_lt_is_Some_2 (data s) (b + 1)) as [q Hq]; [lia|].
    pose proof (Habove b qb ltac:(lia) Hqb).
    pose proof (StronglySorted_lookup_lt _ b (b + 1) _ _ Hasc
                  (xvals_lookup _ _ _ Hqb) (xvals_lookup _ _ _ Hq)
                  ltac:(lia)).
    pose proof (Hrange _ _ Hq). lia. }
  rewrite Ha0.
  destruct (Z.ltb_spec 0 (Z.of_nat 0
              + (Z.of_nat (length (data s)) - (Z.of_nat b + 1) + 1)))
    as [Hpos|Hzero].
  - destruct (Z.ltb_spec (Z.of_nat 0
              + (Z.of_nat (length (data s)) - (Z.of_nat b + 1) + 1)) 1000)
      as [_|Hbig]; [|lia].
    change (JsArray.slice (data s) 0 (Z.of_nat 0))
      with (JsArray.slice (data s) (Z.of_nat 0) (Z.of_nat 0)).
    rewrite (slice_nonneg (data s) 0 0), Nat.sub_0_r, take_0.
    change (JsArray.forEach remove [] s) with s.
    replace (Z.of_nat b + 1) with (Z.of_nat (b + 1)) by lia.
    rewrite slice_nonneg, drop_ge, take_nil by lia.
    change (JsArray.forEach remove [] s) with s.
    destruct (forEach_updateStats_frame (data s) (set_stats None s))
      as (Hd & _ & Hl & He).
    split; [done|]. split; [done|]. split; [done|].
    intros Hlt. exfalso.
    destruct (lookup_lt_is_Some_2 (data s) b) as [qb Hqb]; [lia|].
    pose proof (Habove b qb ltac:(lia) Hqb).
    specialize (Hlt qb (list_elem_of_lookup_2 _ _ _ Hqb)). lia.
  - done.
Qed.

(** *** Order under the whole interface *)

Lemma run_calls_sorted (calls : list Call) s :
  forallb within_contract calls = true →
  StronglySorted Z.lt (xvals s) →
  StronglySorted Z.lt (xvals (run_calls calls s)).
Proof.
  revert s. induction calls as [|c calls IH]; intros s Hok Hs; [done|].
  simpl in Hok. apply andb_true_iff in Hok as [Hc Hok].
  simpl. apply IH; [done|].
  destruct c as [[p b|p|[nd|]|]|range_min range_max];
    unfold apply_call, apply_op.
  - destruct b; [done|]. by apply add_checked_sorted.
  - by apply remove_sorted.
  - simpl in Hc. apply strictly_ascending_sorted in Hc.
    change (reset (Some nd) s) with (addPoints nd true (reset None s)).
    destruct (addPoints_append nd (reset None s)) as (Hd & _).
    unfold xvals. by rewrite Hd.
  - constructor.
  - destruct (forEach_updateStats_frame (data s) (set_stats None s))
      as (Hd & _).
    unfold xvals, resetStats. by rewrite Hd.
  - by apply purge_sorted.
Qed.

(** X18 (order under the whole interface): after every sequence of calls
    on a series created empty that contains no append-only [add] and seeds
    [reset] only with strictly ascending data ([remove], [resetStats] and
    [purgeRecordsOutsideRange] are unrestricted), the stored points are
    strictly ascending by x value. *)
Theorem calls_within_contract_keep_order (calls : list Call) (id : nat) :
  forallb within_contract calls = true →
  strictly_ascending
    (xvals (run_calls calls (new_series id : Series Point Limit))) = true.
Proof.
  intros Hok. apply strictly_ascending_sorted.
  apply run_calls_sorted; [done|constructor].
Qed.

(** X19 ([add], any buffer): whatever the buffer holds, sorted or not,
    [add] in either mode never drops or reorders a stored point: either
    the series is returned as it is, or exactly one point, [p], is
    inserted, and the one event emitted is an [add] whose index is the
    position of [p] afterwards. *)
Theorem add_never_drops_points p (b : bool) s :
  data s `sublist_of` data (add p b s)
  ∧ (add p b s = s
     ∨ (length (data (add p b s)) = S (length (data s))
        ∧ p ∈ data (add p b s)
        ∧ ∃ i : Z, emitted (add p b s) = emitted s ++ [EvAdd p i (self s)]
                   ∧ JsArray.get (data (add p b s)) i = Some p)).
Proof.
  destruct (add_outcome p b s) as [->|(r & Hr & _ & ->)].
  - split; [done|by left].
  - destruct (inserted_at_fields r p s) as (_ & -> & _ & _ & ->).
    assert (Htake : length (take r (data s)) = r)
      by (rewrite length_take; lia).
    split; [|right; split; [|split]].
    + rewrite <- (take_drop r (data s)) at 1.
      apply sublist_app; [done|]. by apply sublist_cons.
    + rewrite length_app, Htake. simpl. rewrite length_drop. lia.
    + apply elem_of_app. right. by left.
    + exists (Z.of_nat r). split; [done|].
      by rewrite get_of_nat, list_lookup_middle.
Qed.
End FurtherProperties.

(** ** The further properties at concrete inputs *)

(** Settles a statement about every stored point of a concrete series by
    going through the stored points one by one. *)
Ltac each_stored :=
  let q := fresh "q" in
  let Hq := fresh "Hq" in
  intros q Hq;
  repeat (apply elem_of_cons in Hq as [->|Hq]; [vm_compute; done|]);
  by apply elem_of_nil in Hq.

Lemma sortedIndex_counts_points_below_witness :
  let s := Demo.holding [1; 5; 10] in
  let p : Demo.Datum := boundPoint 6 in
  strictly_ascending (xvals s) = true
  ∧ sortedIndex p s
    = Z.of_nat (length (filter (fun q => getXVal q < getXVal p) (data s))).
Proof.
  intros s p. split; [reflexivity|].
  apply (sortedIndex_counts_points_below p s). reflexivity.
Defined.

Lemma resetStats_names_first_extreme_points_witness :
  let s := Demo.holding [1; 5; 10] in
  let st := mkStats 2 (Demo.datum 0 1) 20 (Demo.datum 2 10) in
  stats (resetStats s) = Some st
  ∧ first_with_least_y (minPoint st) (data s)
  ∧ getYVal (minPoint st) = minValue st
  ∧ first_with_greatest_y (maxPoint st) (data s)
  ∧ getYVal (maxPoint st) = maxValue st.
Proof.
  intros s st. split; [reflexivity|].
  apply (resetStats_names_first_extreme_points s st). reflexivity.
Defined.

Lemma add_widens_statistics_witness :
  let s := resetStats (Demo.holding [5; 10]) in
  let st := mkStats 10 (Demo.datum 0 5) 20 (Demo.datum 1 10) in
  stats s = Some st
  ∧ ∃ st' : Stats Demo.Datum,
      stats (add (Demo.datum 9 1) false s) = Some st'
      ∧ minValue st' <= minValue st ∧ maxValue st <= maxValue st'
      ∧ (length (data (add (Demo.datum 9 1) false s)) = S (length (data s)) →
         minValue st' <= getYVal (Demo.datum 9 1) <= maxValue st').
Proof.
  intros s st. split; [reflexivity|].
  apply (add_widens_statistics (Demo.datum 9 1) false s st). reflexivity.
Defined.

Lemma add_appendOnly_agrees_with_checked_add_witness :
  let s := Demo.holding [1; 5; 10] in
  let p := Demo.datum 9 12 in
  strictly_ascending (xvals s) = true
  ∧ (∀ q, q ∈ data s → getXVal q < getXVal p)
  ∧ add p true s = add p false s
  ∧ strictly_ascending (xvals (add p true s)) = true.
Proof.
  intros s p.
  assert (Hall : ∀ q, q ∈ data s → getXVal q < getXVal p) by each_stored.
  split; [reflexivity|]. split; [exact Hall|].
  exact (add_appendOnly_agrees_with_checked_add p s eq_refl Hall).
Defined.

Lemma add_appendOnly_skips_order_checks_witness :
  let s := Demo.holding [1; 5; 10] in
  let p := Demo.datum 9 5 in
  let q := Demo.datum 1 5 in
  data s !! 1%nat = Some q ∧ getXVal p <= getXVal q
  ∧ data (add p true s) = data s ++ [p]
  ∧ strictly_ascending (xvals (add p true s)) = false.
Proof.
  intros s p q. split; [reflexivity|]. split; [vm_compute; discriminate|].
  apply (add_appendOnly_skips_order_checks p q s).
  - apply (list_elem_of_lookup_2 _ 1%nat). reflexivity.
  - vm_compute. discriminate.
Defined.

Lemma add_stores_point_at_emitted_index_witness :
  let s := Demo.holding [1; 5; 10] in
  let p := Demo.datum 9 7 in
  strictly_ascending (xvals s) = true
  ∧ (∀ q, q ∈ data s → getXVal q ≠ getXVal p)
  ∧ ∃ k : nat,
      sortedIndex p s = Z.of_nat k
      ∧ emitted (add p false s) = emitted s ++ [EvAdd p (Z.of_nat k) (self s)]
      ∧ data (add p false s) !! k = Some p
      ∧ delete k (data (add p false s)) = data s
      ∧ limits (add p false s) !! p = Some (evaluate p)
      ∧ (∀ q, q ≠ p → limits (add p false s) !! q = limits s !! q).
Proof.
  intros s p.
  assert (Hfresh : ∀ q, q ∈ data s → getXVal q ≠ getXVal p) by each_stored.
  split; [reflexivity|]. split; [exact Hfresh|].
  exact (add_stores_point_at_emitted_index p s eq_refl Hfresh).
Defined.

Lemma remove_keeps_strictly_ascending_witness :
  let s := Demo.holding [1; 5; 10] in
  let p := Demo.datum 1 5 in
  strictly_ascending (xvals s) = true
  ∧ strictly_ascending (xvals (remove p s)) = true
  ∧ data (remove p s) `sublist_of` data s
  ∧ length (data (remove p s)) = (length (data s) - 1)%nat.
Proof.
  intros s p. split; [reflexivity|].
  apply (remove_keeps_strictly_ascending p s). reflexivity.
Defined.

Lemma remove_on_empty_buffer_witness :
  let s : Series Demo.Datum bool := new_series 7 in
  let p := Demo.datum 0 1 in
  data s = []
  ∧ remove p s
    = mkSeries (self s) [] (stats s) (limits s)
        (emitted s ++ [EvRemove p (-1) (self s)]).
Proof.
  intros s p. split; [reflexivity|].
  apply (remove_on_empty_buffer p s). reflexivity.
Defined.

Lemma remove_undoes_add_on_points_only_witness :
  let s := Demo.holding [1; 5; 10] in
  let p := Demo.datum 9 7 in
  strictly_ascending (xvals s) = true
  ∧ (∀ q, q ∈ data s → getXVal q ≠ getXVal p)
  ∧ data (remove p (add p false s)) = data s
  ∧ stats (remove p (add p false s)) = stats (updateStats p s).
Proof.
  intros s p.
  assert (Hfresh : ∀ q, q ∈ data s → getXVal q ≠ getXVal p) by each_stored.
  split; [reflexivity|]. split; [exact Hfresh|].
  exact (remove_undoes_add_on_points_only p s eq_refl Hfresh).
Defined.

Lemma nearestPoint_exact_hit_witness :
  let s := Demo.holding [1; 5; 10] in
  let q : Demo.Datum := boundPoint 5 in
  let p := Demo.datum 1 5 in
  strictly_ascending (xvals s) = true
  ∧ data s !! 1%nat = Some p ∧ getXVal p = getXVal q
  ∧ nearestPoint q s = Some p.
Proof.
  intros s q p. split; [reflexivity|]. split; [reflexivity|].
  split; [reflexivity|].
  apply (nearestPoint_exact_hit q p s); [reflexivity| |reflexivity].
  apply (list_elem_of_lookup_2 _ 1%nat). reflexivity.
Defined.

Lemma purge_keeps_a_window_witness :
  let s := Demo.holding [1; 5; 10; 20; 30] in
  strictly_ascending (xvals s) = true
  ∧ ∃ n : nat,
      data (purgeRecordsOutsideRange 3 7 s)
      = take n (drop (Z.to_nat (sortedIndex (boundPoint 3) s)) (data s))
      ∧ strictly_ascending (xvals (purgeRecordsOutsideRange 3 7 s)) = true.
Proof.
  intros s. split; [reflexivity|].
  apply (purge_keeps_a_window 3 7 s). reflexivity.
Defined.

Lemma purge_removes_points_below_min_witness :
  let s := Demo.holding [1; 5; 10; 20; 30] in
  let q := Demo.datum 1 5 in
  strictly_ascending (xvals s) = true
  ∧ getXVal (boundPoint 3 : Demo.Datum) = 3
  ∧ data (purgeRecordsOutsideRange 3 7 s) !! 0%nat = Some q
  ∧ 3 <= getXVal q.
Proof.
  intros s q. split; [reflexivity|]. split; [reflexivity|].
  split; [reflexivity|].
  apply (purge_removes_points_below_min 3 7 s q); [reflexivity..|].
  apply (list_elem_of_lookup_2 _ 0%nat). reflexivity.
Defined.

Lemma purge_of_buffer_inside_range_witness :
  let s := Demo.holding [1; 5; 10] in
  strictly_ascending (xvals s) = true
  ∧ getXVal (boundPoint 0 : Demo.Datum) = 0
  ∧ getXVal (boundPoint 10 : Demo.Datum) = 10
  ∧ (∀ q, q ∈ data s → in_range 0 10 (getXVal q) = true)
  ∧ data (purgeRecordsOutsideRange 0 10 s) = data s
  ∧ limits (purgeRecordsOutsideRange 0 10 s) = limits s
  ∧ emitted (purgeRecordsOutsideRange 0 10 s) = emitted s
  ∧ ((∀ q, q ∈ data s → getXVal q < 10) →
     purgeRecordsOutsideRange 0 10 s = s).
Proof.
  intros s.
  assert (Hin : ∀ q, q ∈ data s → in_range 0 10 (getXVal q) = true)
    by each_stored.
  split; [reflexivity|]. split; [reflexivity|]. split; [reflexivity|].
  split; [exact Hin|].
  exact (purge_of_buffer_inside_range 0 10 s eq_refl eq_refl eq_refl Hin).
Defined.

Lemma calls_within_contract_keep_order_witness :
  let calls : list (Call (Point := Demo.Datum)) :=
    [Mutate (OpAdd (Demo.datum 0 5) false);
     Mutate (OpAdd (Demo.datum 1 1) false);
     Mutate (OpAdd (Demo.datum 2 9) false);
     Mutate (OpRemove (Demo.datum 0 5));
     Purge 0 3;
     Mutate (OpReset (Some [Demo.datum 3 2; Demo.datum 4 4]))] in
  forallb within_contract calls = true
  ∧ strictly_ascending
      (xvals (run_calls calls (new_series 7 : Series Demo.Datum bool))) = true.
Proof.
  intros calls. split; [reflexivity|].
  apply (calls_within_contract_keep_order calls 7). reflexivity.
Defined.

Lemma purge_keeps_points_in_range_witness :
  let s := Demo.holding [1; 5; 10; 20; 30] in
  let p := Demo.datum 1 5 in
  strictly_ascending (xvals s) = true
  ∧ getXVal (boundPoint 3 : Demo.Datum) = 3
  ∧ getXVal (boundPoint 7 : Demo.Datum) = 7
  ∧ data s !! 1%nat = Some p
  ∧ in_range 3 7 (getXVal p) = true
  ∧ p ∈ data (purgeRecordsOutsideRange 3 7 s).
Proof.
  intros s p. split; [reflexivity|]. split; [reflexivity|].
  split; [reflexivity|]. split; [reflexivity|]. split; [reflexivity|].
  apply (purge_keeps_points_in_range 3 7 s p); [reflexivity..| |reflexivity].
  apply (list_elem_of_lookup_2 _ 1%nat). reflexivity.
Defined.
